(** * Publisher Final Delivery: the ingestion engine, embedded and verified

    A shallow embedding of [IngestionEngine] (engine.py): the keyword
    normalizer [process_keywords], the Clean Room validator [validate_data]
    and the package compiler [compile_final_package], with the properties
    the specification states about them.

    Text is modelled as lists of 8-bit characters read as code points: the
    Python string methods below ([str.lower], [str.title], [str.strip],
    [str.split], [in]) are given with the behaviour CPython has on the ASCII
    code points 0..127 and on U+00DF, the sharp s, the one letter here whose
    title case is longer than the letter; any other character above 127 is
    treated as a caseless, non-space, non-word symbol.  What is proved for
    ASCII text only says so, with [isascii]. *)

From Stdlib Require Import List Bool Arith Lia Ascii String DecimalString.
Import ListNotations.

Local Open Scope list_scope.
Local Open Scope bool_scope.

(** ** Python strings *)

Definition str := list ascii.

(** A Python string literal. *)
Definition lit (s : string) : str := list_ascii_of_string s.

(** [not s] for a string or a list. *)
Definition is_empty {A : Type} (s : list A) : bool :=
  match s with [] => true | _ :: _ => false end.

(** Truthiness of a string or a list: [if s:]. *)
Definition truthy {A : Type} (s : list A) : bool := negb (is_empty s).

Module Char.

Definition code (c : ascii) : nat := nat_of_ascii c.

(** [str.isspace] on one ASCII character: TAB, LF, VT, FF, CR, the four
    separators FS GS RS US, and the space. *)
Definition isspace (c : ascii) : bool :=
  ((9 <=? code c) && (code c <=? 13))
  || ((28 <=? code c) && (code c <=? 32)).

(** The letters A..Z and a..z: each has a one-character counterpart of the
    other case. *)
Definition isupper (c : ascii) : bool := (65 <=? code c) && (code c <=? 90).
Definition islower (c : ascii) : bool := (97 <=? code c) && (code c <=? 122).
Definition isdigit (c : ascii) : bool := (48 <=? code c) && (code c <=? 57).

(** The sharp s (U+00DF): a lower-case letter with no one-character upper
    case; its title case is the two letters [Ss]. *)
Definition sharp_s : ascii := ascii_of_nat 223.
Definition is_sharp_s (c : ascii) : bool := Ascii.eqb c sharp_s.

(** [c.isascii()] *)
Definition isascii (c : ascii) : bool := code c <? 128.

(** A cased character: what [str.title] looks at in the character before. *)
Definition iscased (c : ascii) : bool := isupper c || islower c || is_sharp_s c.

(** The regular-expression class [\w]; [\W] is its complement. *)
Definition isword (c : ascii) : bool :=
  isupper c || islower c || isdigit c || (code c =? 95) || is_sharp_s c.

Definition lower (c : ascii) : ascii :=
  if isupper c then ascii_of_nat (code c + 32) else c.
Definition upper (c : ascii) : ascii :=
  if islower c then ascii_of_nat (code c - 32) else c.

(** The title case of one character, a string. *)
Definition to_title (c : ascii) : str :=
  if is_sharp_s c then lit "Ss" else [upper c].

Definition space : ascii := " "%char.
Definition comma : ascii := ","%char.
Definition semicolon : ascii := ";"%char.
Definition is_space_char (c : ascii) : bool := Ascii.eqb c space.
Definition is_comma (c : ascii) : bool := Ascii.eqb c comma.
(** The regular expression [[,;]]. *)
Definition is_comma_or_semicolon (c : ascii) : bool :=
  Ascii.eqb c comma || Ascii.eqb c semicolon.

End Char.

(** [s.lower()] *)
Definition lower (s : str) : str := map Char.lower s.

(** [s.isascii()] *)
Definition isascii (s : str) : bool := forallb Char.isascii s.

(** [s.title()]: a character is lower-cased when the character before it is
    cased, and title-cased when it is not. *)
Fixpoint title_from (prev_cased : bool) (s : str) : str :=
  match s with
  | [] => []
  | c :: r =>
      (if prev_cased then [Char.lower c] else Char.to_title c)
      ++ title_from (Char.iscased c) r
  end.

Definition title (s : str) : str := title_from false s.

Fixpoint drop_while (p : ascii -> bool) (s : str) : str :=
  match s with
  | [] => []
  | c :: r => if p c then drop_while p r else s
  end.

Definition lstrip (s : str) : str := drop_while Char.isspace s.
Definition rstrip (s : str) : str := rev (drop_while Char.isspace (rev s)).

(** [s.strip()] *)
Definition strip (s : str) : str := lstrip (rstrip s).

(** [s.count(c)] for a one-character [c]. *)
Fixpoint count (c : ascii) (s : str) : nat :=
  match s with
  | [] => 0
  | d :: r => (if Ascii.eqb d c then 1 else 0) + count c r
  end.

(** Splitting at every separator character: [s.split(',')], [s.split(' ')]
    and [re.split(r'[,;]', s)].  [n] separators give [n + 1] pieces, empty
    ones included. *)
Fixpoint split_at (sep : ascii -> bool) (s : str) : list str :=
  match s with
  | [] => [[]]
  | c :: r =>
      if sep c then [] :: split_at sep r
      else match split_at sep r with
           | [] => [[c]]
           | w :: ws => (c :: w) :: ws
           end
  end.

(** [s.split()] without argument: runs of whitespace separate, and no empty
    piece is produced. *)
Definition split (s : str) : list str :=
  filter truthy (split_at Char.isspace s).

(** [sep.join(pieces)] *)
Fixpoint join (sep : str) (pieces : list str) : str :=
  match pieces with
  | [] => []
  | [p] => p
  | p :: rest => p ++ sep ++ join sep rest
  end.

Fixpoint str_eqb (a b : str) : bool :=
  match a, b with
  | [], [] => true
  | x :: a', y :: b' => Ascii.eqb x y && str_eqb a' b'
  | _, _ => false
  end.

(** [x in collection] for a set or a list of strings. *)
Definition member (x : str) (collection : list str) : bool :=
  existsb (str_eqb x) collection.

Fixpoint startswith (s prefix : str) {struct prefix} : bool :=
  match prefix, s with
  | [], _ => true
  | _ :: _, [] => false
  | p :: prefix', c :: s' => Ascii.eqb p c && startswith s' prefix'
  end.

(** [needle in hay] for two strings: substring containment. *)
Fixpoint contains (hay needle : str) : bool :=
  startswith hay needle
  || match hay with
     | [] => false
     | _ :: r => contains r needle
     end.

(** The relation [contains] decides. *)
Definition Substring (needle hay : str) : Prop :=
  exists before after, hay = before ++ needle ++ after.

(** [s.splitlines()]: a line ends at LF, VT, FF, CR, CR LF, FS, GS or RS;
    no empty last line is produced. *)
Definition is_linebreak (c : ascii) : bool :=
  ((10 <=? Char.code c) && (Char.code c <=? 13))
  || ((28 <=? Char.code c) && (Char.code c <=? 30)).

Fixpoint splitlines_from (cur : str) (s : str) : list str :=
  match s with
  | [] => if is_empty cur then [] else [rev cur]
  | c :: r =>
      if is_linebreak c then
        rev cur ::
          match r with
          | d :: r' =>
              if (Char.code c =? 13) && (Char.code d =? 10)
              then splitlines_from [] r'
              else splitlines_from [] r
          | [] => []
          end
      else splitlines_from (c :: cur) r
  end.

Definition splitlines (s : str) : list str := splitlines_from [] s.

(** [re.sub(r'^\W+|\W+$', '', s)]: the leading and the trailing run of
    non-word characters are removed. *)
Definition strip_nonword (s : str) : str :=
  let notword c := negb (Char.isword c) in
  rev (drop_while notword (rev (drop_while notword s))).

(** [str(n)] for a natural number. *)
Definition str_of_nat (n : nat) : str :=
  lit (NilEmpty.string_of_uint (Nat.to_uint n)).

(** ** The ban lists *)

(** [global_bans] of [process_keywords]; [validate_data] starts its own set
    from the same five words.  A Python set is consumed here only through
    [in] and [any], so a list stands for it. *)
Definition global_bans : list str :=
  map lit ["epic"; "huge"; "massive"; "awesome"; "badass"]%string.

(** The catalog entries read from [Banned_Keywords.txt].  [banned_file] is
    the text of that file, or [None] when the voice-guide folder or the file
    does not exist. *)
Definition catalog_bans (banned_file : option str) : list str :=
  match banned_file with
  | None => []
  | Some text =>
      map (fun line => lower (strip line))
          (filter (fun line => truthy (strip line)) (splitlines text))
  end.

(** [any(b in text for b in banned)] *)
Definition any_in (banned : list str) (text : str) : bool :=
  existsb (fun b => contains text b) banned.

(** ** KeywordNormalizer: [process_keywords] *)

(** [PromptEngine.get_harvest_loop_prompt] *)
Definition get_harvest_loop_prompt (keyword : str) : str :=
  lit "Rephrase the keyword '" ++ keyword ++
  lit "' so it is exactly 1, 2, or 3 words maximum. Preserve the original semantic meaning perfectly. Return ONLY the new keyword, no other text.".

(** The list comprehension that builds [kw_list]. *)
Definition kw_list (keywords_raw : str) : list str :=
  map strip
      (filter (fun k => truthy (strip k))
              (split_at Char.is_comma_or_semicolon keywords_raw)).

(** The test of the second loop: the phrase is kept when it holds. *)
Definition passes_ban_check (banned_from_catalog : list str) (kw : str) : bool :=
  let kw_lower := lower kw in
  let words_in_kw := split kw_lower in
  let has_ban :=
    existsb (fun ban => member ban words_in_kw) global_bans
    || existsb (fun ban => contains kw_lower ban) banned_from_catalog in
  negb has_ban
  && negb (member kw_lower global_bans)
  && negb (member kw_lower banned_from_catalog).

(** What a kept phrase becomes. *)
Definition final_kw (kw : str) : str :=
  let parts := split (lower kw) in
  if 3 <? List.length parts
  then title (join (lit " ") (firstn 3 parts))
  else title kw.

(** One round of the second loop, on the accumulator [final_keywords]. *)
Definition filter_step (banned_from_catalog : list str)
    (final_keywords : list str) (kw : str) : list str :=
  if passes_ban_check banned_from_catalog kw
  then final_keywords ++ [final_kw kw]
  else final_keywords.

Section Normalizer.

(** The text-generation service.  [World] is whatever the service's answer
    depends on; [generate_content prompt w] is [model.generate_content]
    followed by [res.text]: [Some text], or [None] when either raises. *)
Variable World : Type.
Variable generate_content : str -> World -> option str * World.

(** The state of the first loop: the list built so far, the service, and
    the prompts sent to it, oldest first. *)
Record Correcting := {
  corrected_keywords : list str;
  service : World;
  prompts_sent : list str
}.

(** One round of the first loop. *)
Definition correct_step (st : Correcting) (kw : str) : Correcting :=
  if 2 <? count Char.space kw then
    let prompt := get_harvest_loop_prompt kw in
    match generate_content prompt (service st) with
    | (Some text, w) =>
        let new_kw := strip text in
        {| corrected_keywords :=
             corrected_keywords st ++ [if truthy new_kw then new_kw else kw];
           service := w;
           prompts_sent := prompts_sent st ++ [prompt] |}
    | (None, w) =>
        {| corrected_keywords := corrected_keywords st ++ [kw];
           service := w;
           prompts_sent := prompts_sent st ++ [prompt] |}
    end
  else
    {| corrected_keywords := corrected_keywords st ++ [kw];
       service := service st;
       prompts_sent := prompts_sent st |}.

(** The first loop. *)
Definition correct_all (kws : list str) (w : World) : Correcting :=
  fold_left correct_step kws
    {| corrected_keywords := []; service := w; prompts_sent := [] |}.

(** What a call of [process_keywords] leaves behind. *)
Record Outcome := {
  returned : str;
  service_after : World;
  prompts : list str
}.

Definition process_keywords (banned_file : option str)
    (keywords_raw : str) (w : World) : Outcome :=
  if is_empty keywords_raw then
    {| returned := []; service_after := w; prompts := [] |}
  else
    let st := correct_all (kw_list keywords_raw) w in
    let banned_from_catalog := catalog_bans banned_file in
    let final_keywords :=
      fold_left (filter_step banned_from_catalog) (corrected_keywords st) [] in
    {| returned := join (lit ", ") final_keywords;
       service_after := service st;
       prompts := prompts_sent st |}.

End Normalizer.

Arguments corrected_keywords {World}.
Arguments service {World}.
Arguments prompts_sent {World}.
Arguments returned {World}.
Arguments service_after {World}.
Arguments prompts {World}.

(** Two services for running the normalizer on concrete input: one that
    always fails, and one that answers from a table of prompts. *)
Definition failing_service (_ : str) (w : unit) : option str * unit := (None, w).

Definition table_service (table : list (str * str)) (prompt : str) (w : unit)
  : option str * unit :=
  (option_map snd (find (fun e => str_eqb (fst e) prompt) table), w).

Definition normalize_offline (banned_file : option str) (raw : string) : str :=
  returned (process_keywords unit failing_service banned_file (lit raw) tt).

(** ** The data handed to the validator and the compiler *)

(** A track is a dictionary; a field is [None] when its key is absent. *)
Record Track := {
  Title : option str;
  Keywords : option str;
  Track_Description : option str
}.

(** The [data] dictionary, each key present or absent. *)
Record AlbumContent := {
  tracks : option (list Track);
  album_description : option str;
  album_name : option str;
  cover_art : option str;
  mailchimp_intro : option str
}.

(** [d.get(key, default)] *)
Definition get {A : Type} (field : option A) (default : A) : A :=
  match field with
  | Some v => v
  | None => default
  end.

(** [enumerate(l)], counting from [i]. *)
Fixpoint enumerate_from {A : Type} (i : nat) (l : list A) : list (nat * A) :=
  match l with
  | [] => []
  | x :: r => (i, x) :: enumerate_from (S i) r
  end.

Definition enumerate {A : Type} (l : list A) : list (nat * A) :=
  enumerate_from 0 l.

(** ** CleanRoomValidator: [validate_data] *)

Module Msg.

Definition too_many_spaces (title kw : str) : str :=
  lit "ERROR: Track '" ++ title ++ lit "' keyword '" ++ kw ++
  lit "' contains too many spaces (>2).".

Definition banned_keyword (title kw : str) : str :=
  lit "ERROR: Track '" ++ title ++ lit "' keyword '" ++ kw ++
  lit "' contains a banned word.".

Definition antigravity (title first_word : str) : str :=
  lit "ERROR: Track '" ++ title ++
  lit "' description violates the Antigravity Protocol (Starts with '" ++
  first_word ++ lit "').".

Definition album_description : str :=
  lit "ERROR: Album Description contains a banned word.".

Definition album_name : str :=
  lit "ERROR: Album Name contains a banned word.".

Definition no_tracks : str :=
  lit "ERROR: No track data found to export.".

End Msg.

(** The set [banned] of [validate_data]: the five global words, updated
    with the catalog entries. *)
Definition validator_bans (banned_file : option str) : list str :=
  global_bans ++ catalog_bans banned_file.

Definition articles : list str := map lit ["a"; "an"; "the"]%string.

(** The first word of a stripped description, as the validator takes it. *)
Definition first_word_of (desc : str) : str :=
  strip_nonword (lower (hd [] (split_at Char.is_space_char desc))).

(** One round of the loop over the keywords of a track. *)
Definition check_keyword (banned : list str) (title : str)
    (errors : list str) (kw_piece : str) : list str :=
  let kw := strip kw_piece in
  let errors :=
    if 2 <? count Char.space kw
    then errors ++ [Msg.too_many_spaces title kw]
    else errors in
  let kw_lower := lower kw in
  if any_in banned kw_lower
  then errors ++ [Msg.banned_keyword title kw]
  else errors.

(** One round of the loop over the tracks. *)
Definition check_track (banned : list str) (errors : list str)
    (entry : nat * Track) : list str :=
  let (i, track) := entry in
  let title := get (Title track) (lit "Track " ++ str_of_nat (i + 1)) in
  let kw_str := get (Keywords track) [] in
  let errors :=
    if truthy kw_str
    then fold_left (check_keyword banned title)
                   (split_at Char.is_comma kw_str) errors
    else errors in
  let desc := strip (get (Track_Description track) []) in
  if truthy desc then
    let first_word := first_word_of desc in
    if member first_word articles
    then errors ++ [Msg.antigravity title first_word]
    else errors
  else errors.

Definition validate_data (banned_file : option str) (data : AlbumContent)
  : bool * list str :=
  let banned := validator_bans banned_file in
  let tracks := get (tracks data) [] in
  let errors := fold_left (check_track banned) (enumerate tracks) [] in
  let album_desc := lower (get (album_description data) []) in
  let errors :=
    if any_in banned album_desc
    then errors ++ [Msg.album_description] else errors in
  let album_name := lower (get (album_name data) []) in
  let errors :=
    if any_in banned album_name
    then errors ++ [Msg.album_name] else errors in
  let errors :=
    if is_empty tracks
    then errors ++ [Msg.no_tracks] else errors in
  (List.length errors =? 0, errors).

(** ** PackageCompiler: [compile_final_package] *)

Module Archive.

Definition track_keywords : str := lit "01 Track Keywords/Track_Keywords.csv".
Definition track_descriptions : str :=
  lit "02 Track Descriptions/Track_Descriptions.csv".
Definition album_description : str :=
  lit "03 Album Description/Album_Description.txt".
Definition album_name : str := lit "04 Album Name/Album_Name.txt".
Definition cover_art : str := lit "05 Album Cover Art/MidJourney_Prompts.txt".
Definition mailchimp : str := lit "06 MailChimp Intro/MailChimp_Copy.txt".

(** What decompression gives back: the members in the order they were
    written, each a name and its text. *)
Definition t := list (str * str).

Definition namelist (a : t) : list str := map fst a.

End Archive.

(** A data frame restricted to a list of columns: the column names and one
    row per record, a cell being [None] (NaN) where the record lacks the
    key. *)
Record Frame := {
  columns : list str;
  rows : list (list (option str))
}.

Inductive Column := ColTitle | ColKeywords | ColDescription.

Definition column_name (c : Column) : str :=
  match c with
  | ColTitle => lit "Title"
  | ColKeywords => lit "Keywords"
  | ColDescription => lit "Track Description"
  end.

Definition cell (c : Column) (t : Track) : option str :=
  match c with
  | ColTitle => Title t
  | ColKeywords => Keywords t
  | ColDescription => Track_Description t
  end.

Definition is_some {A : Type} (o : option A) : bool :=
  match o with Some _ => true | None => false end.

(** [pd.DataFrame(records)] has a column for each key that some record
    carries. *)
Definition has_column (records : list Track) (c : Column) : bool :=
  existsb (fun t => is_some (cell c t)) records.

(** [pd.DataFrame(records)[[c1, c2]]]: [None] stands for the [KeyError]
    raised when a requested column is missing. *)
Definition select (records : list Track) (cs : list Column) : option Frame :=
  if forallb (has_column records) cs
  then Some {| columns := map column_name cs;
               rows := map (fun t => map (fun c => cell c t) cs) records |}
  else None.

Section Compiler.

(** [DataFrame.to_csv(index=False)], the table writer of pandas. *)
Variable to_csv : Frame -> str.

(** The members written for the tracks, when [data['tracks']] is there
    and not empty. *)
Definition track_members (records : list Track) : option Archive.t :=
  match select records [ColTitle; ColKeywords] with
  | None => None
  | Some df_kw =>
      match select records [ColTitle; ColDescription] with
      | None => None
      | Some df_desc =>
          Some [ (Archive.track_keywords, to_csv df_kw);
                 (Archive.track_descriptions, to_csv df_desc) ]
      end
  end.

Definition text_members (data : AlbumContent) : Archive.t :=
  [ (Archive.album_description, get (album_description data) []);
    (Archive.album_name, get (album_name data) []);
    (Archive.cover_art, get (cover_art data) []);
    (Archive.mailchimp, get (mailchimp_intro data) []) ].

(** The archive written, or [None] when the function raises. *)
Definition compile_final_package (data : AlbumContent) : option Archive.t :=
  match tracks data with
  | Some ((_ :: _) as records) =>
      match track_members records with
      | Some members => Some (members ++ text_members data)
      | None => None
      end
  | Some [] | None => Some (text_members data)
  end.

End Compiler.

(** ** The table writer: [DataFrame.to_csv(index=False)] *)

Module Csv.

(** The quote character of the csv dialect pandas writes. *)
Definition quotechar : ascii := ascii_of_nat 34.
Definition is_quote (c : ascii) : bool := Ascii.eqb c quotechar.

Definition is_cr_or_lf (c : ascii) : bool :=
  (Char.code c =? 13) || (Char.code c =? 10).

Section Writer.

(** The line terminator of the dialect. *)
Variable lineterminator : str.

(** Whether CR and LF make the writer quote a field whatever the line
    terminator is, as newer versions of the csv module do; older ones
    quote for the characters of the line terminator only. *)
Variable quotes_line_breaks : bool.

(** The characters that make the writer quote a field (QUOTE_MINIMAL):
    the delimiter, the quote character and those of the line terminator. *)
Definition special (c : ascii) : bool :=
  Char.is_comma c
  || is_quote c
  || existsb (Ascii.eqb c) lineterminator
  || (quotes_line_breaks && is_cr_or_lf c).

(** One field: as it is, or in quotes with every quote character doubled. *)
Definition field (s : str) : str :=
  if existsb special s
  then quotechar
       :: flat_map (fun c => if is_quote c then [c; c] else [c]) s
       ++ [quotechar]
  else s.

(** One record: the fields joined by commas, and the line terminator.  A
    record of one empty field is written as two quote characters. *)
Definition record (fields : list str) : str :=
  match fields with
  | [ [] ] => [quotechar; quotechar]
  | _ => join (lit ",") (map field fields)
  end ++ lineterminator.

(** The header, then one record per row in the order of the rows; a
    missing cell (NaN) is written as the empty field. *)
Definition to_csv (f : Frame) : str :=
  record (columns f)
  ++ List.concat (map (fun r => record (map (fun c => get c []) r)) (rows f)).

End Writer.

(** [os.linesep], which pandas hands to the csv writer as the line
    terminator: LF, or CR LF on Windows. *)
Inductive Platform := Posix | Windows.

Definition linesep (platform : Platform) : str :=
  match platform with
  | Posix => ["010"%char]
  | Windows => ["013"%char; "010"%char]
  end.

Definition posix : str := linesep Posix.

End Csv.

(** ** Sample data *)

Module Sample.

Definition dawn : Track :=
  {| Title := Some (lit "Dawn");
     Keywords := Some (lit "Soft Piano, Huger Sound");
     Track_Description := Some (lit "Slow piano opens the day.") |}.

Definition dusk : Track :=
  {| Title := Some (lit "Dusk");
     Keywords := Some (lit "Warm Strings");
     Track_Description := Some (lit "Strings fade, then rest.") |}.

Definition album (records : list Track) : AlbumContent :=
  {| tracks := Some records;
     album_description := Some (lit "Quiet mornings.");
     album_name := Some (lit "First Light");
     cover_art := Some (lit "A pale sun over water");
     mailchimp_intro := None |}.

End Sample.

(** A table writer for running the compiler on concrete data: fields
    joined by commas, one line per row, a missing cell left empty. *)
Definition plain_csv (f : Frame) : str :=
  let line cells := join (lit ",") cells ++ ["010"%char] in
  line (columns f)
  ++ List.concat (map (fun r => line (map (fun c => get c []) r)) (rows f)).

(** ** Folder resolution: [_resolve_subfolders], [__init__], [set_root_path] *)

(** An entry of the root directory: its name and whether it is a
    directory.  A resolved folder is kept by its name. *)
Record DirEntry := {
  entry_name : str;
  entry_is_dir : bool
}.

(** What the file system shows at a path: whether the path exists, and the
    entries [iterdir] lists there ([None] when listing raises). *)
Record RootView := {
  root_exists : bool;
  root_listing : option (list DirEntry)
}.

(** The dictionary [self.folders]: its keys in order, each with the folder
    found for it or [None]. *)
Definition Folders := list (str * option str).

Definition initial_folders : Folders :=
  [ (lit "01_VISUAL_REFERENCES", None);
    (lit "02_VOICE_GUIDES", None);
    (lit "03_METADATA_MASTER", None) ].

(** [next((d for d in subdirs if folder_key.lower() in d.name.lower()), None)] *)
Definition first_match (subdirs : list str) (folder_key : str) : option str :=
  find (fun name => contains (lower name) (lower folder_key)) subdirs.

(** The listing is read before any key is assigned, so when it raises the
    dictionary is as it was. *)
Definition _resolve_subfolders (listing : option (list DirEntry))
    (folders : Folders) : Folders :=
  match listing with
  | None => folders
  | Some entries =>
      let subdirs := map entry_name (filter entry_is_dir entries) in
      map (fun kv => (fst kv, first_match subdirs (fst kv))) folders
  end.

Record Engine := {
  root_path : str;
  folders : Folders
}.

Definition resolve_if_exists (view : RootView) (fs : Folders) : Folders :=
  if root_exists view then _resolve_subfolders (root_listing view) fs else fs.

(** [IngestionEngine(root_path)]: an absent or empty path means ["."]. *)
Definition init (file_system : str -> RootView) (root : option str) : Engine :=
  let path :=
    match root with
    | Some r => if truthy r then r else lit "."
    | None => lit "."
    end in
  {| root_path := path;
     folders := resolve_if_exists (file_system path) initial_folders |}.

Definition set_root_path (file_system : str -> RootView)
    (engine : Engine) (root : str) : Engine :=
  {| root_path := root;
     folders := resolve_if_exists (file_system root) (folders engine) |}.

(** ** [call_gemini] *)

Section Gemini.

(** The service behind [GenerativeModel(model_name).generate_content] and
    [res.text]: the text, or the message [str(e)] of what was raised. *)
Variable World : Type.
Variable generate : str -> str -> World -> (str + str) * World.

Definition full_prompt (system_instr prompt : str) : str :=
  lit "System Instruction:" ++ ["010"%char] ++ system_instr
  ++ ["010"%char; "010"%char] ++ lit "Task:" ++ ["010"%char] ++ prompt.

Definition call_gemini (model_name system_instr prompt : str) (w : World)
  : str * World :=
  match generate model_name (full_prompt system_instr prompt) w with
  | (inl text, w') => (strip text, w')
  | (inr message, w') => (lit "Error: " ++ message, w')
  end.

End Gemini.

(** ** [analyze_audio_file] *)

(** [s.endswith(suffix)], [s[n:]] and [s[:-n]]. *)
Definition endswith (s suffix : str) : bool := startswith (rev s) (rev suffix).
Definition from_index (n : nat) (s : str) : str := skipn n s.
Definition without_last (n : nat) (s : str) : str := firstn (List.length s - n) s.

(** The lines between [response.text] and [json.loads]: the text the
    parser is given. *)
Definition unfence (response_text : str) : str :=
  let text := strip response_text in
  let text := if startswith text (lit "```json") then from_index 7 text else text in
  let text := if endswith text (lit "```") then without_last 3 text else text in
  strip text.

(** A file on the service: [audio_file.name] and [audio_file.state.name]. *)
Record RemoteFile := {
  file_name : str;
  state_name : str
}.

(** The calls made to the service, oldest first. *)
Inductive Call :=
| UploadFile (path : str)
| GetFile (name : str)
| GenerateContent (prompt : str) (file : str)
| DeleteFile (name : str)
| Rephrase (prompt : str).

(** How the polling loop ends: with a file that is no longer PROCESSING,
    with [get_file] raising, or not within the number of rounds looked
    at. *)
Inductive Awaited :=
| Ready (audio_file : RemoteFile)
| PollRaised
| StillProcessing.

Section AudioAnalysis.

(** What [json.loads] returns; [Number] is the type of JSON numbers and
    [number_truthy] tells the non-zero ones.  The members of an object have
    distinct keys, as a dictionary has. *)
Variable Number : Type.
Variable number_truthy : Number -> bool.

#[warning="-register-all"]
Inductive Json :=
| JNull
| JBool (b : bool)
| JNumber (n : Number)
| JString (s : str)
| JArray (items : list Json)
| JObject (members : list (str * Json)).

Definition json_truthy (v : Json) : bool :=
  match v with
  | JNull => false
  | JBool b => b
  | JNumber n => number_truthy n
  | JString s => truthy s
  | JArray items => truthy items
  | JObject members => truthy members
  end.

(** [key in metadata]: [None] stands for the [TypeError] raised on a
    number, a boolean or null. *)
Definition json_contains (key : str) (metadata : Json) : option bool :=
  match metadata with
  | JObject members => Some (existsb (fun kv => str_eqb (fst kv) key) members)
  | JArray items =>
      Some (existsb (fun x => match x with
                              | JString s => str_eqb s key
                              | _ => false
                              end) items)
  | JString s => Some (contains s key)
  | JNull | JBool _ | JNumber _ => None
  end.

(** [members[key]] and [members[key] = v] on a dictionary. *)
Definition item (key : str) (members : list (str * Json)) : option Json :=
  option_map snd (find (fun kv => str_eqb (fst kv) key) members).

Fixpoint set_item (key : str) (v : Json) (members : list (str * Json))
  : list (str * Json) :=
  match members with
  | [] => [(key, v)]
  | (k, x) :: rest =>
      if str_eqb k key then (k, v) :: rest
      else (k, x) :: set_item key v rest
  end.

(** What makes the lines after the parser raise. *)
Definition keywords_unusable (metadata : Json) : Prop :=
  match metadata with
  | JNull | JBool _ | JNumber _ => True
  | JString s => Substring (lit "Keywords") s
  | JArray items => In (JString (lit "Keywords")) items
  | JObject members =>
      exists v, item (lit "Keywords") members = Some v
                /\ json_truthy v = true
                /\ forall s, v <> JString s
  end.

(** The services: uploading, polling and deleting a file, the analysis of
    the audio ([None] when [generate_content] raises, [Some None] when
    reading [response.text] does), the JSON parser ([None] when it raises)
    and the rewriter of [process_keywords].  [genai.configure] and the
    construction of the model objects are taken not to raise. *)
Variable World : Type.
Variable upload_file : str -> World -> option RemoteFile * World.
Variable get_file : str -> World -> option RemoteFile * World.
Variable analyze_audio : str -> RemoteFile -> World -> option (option str) * World.
Variable delete_file : str -> World -> bool * World.
Variable loads : str -> option Json.
Variable generate_content : str -> World -> option str * World.

(** [PromptEngine.generate_keywords_analysis_prompt], with the personas the
    engine has loaded. *)
Variable generate_keywords_analysis_prompt : str -> str.

(** The loop [while audio_file.state.name == "PROCESSING"], looked at for
    [rounds] rounds. *)
Fixpoint await (rounds : nat) (audio_file : RemoteFile) (w : World)
    (calls : list Call) : Awaited * World * list Call :=
  if str_eqb (state_name audio_file) (lit "PROCESSING") then
    match rounds with
    | 0 => (StillProcessing, w, calls)
    | S rounds' =>
        match get_file (file_name audio_file) w with
        | (Some audio_file', w') =>
            await rounds' audio_file' w'
              (calls ++ [GetFile (file_name audio_file)])
        | (None, w') =>
            (PollRaised, w', calls ++ [GetFile (file_name audio_file)])
        end
    end
  else (Ready audio_file, w, calls).

(** What a call leaves behind: [Some result] when it returned [result],
    [None] when it is still polling; the service; the calls made. *)
Record Analysis := {
  analysis : option (option Json);
  service_then : World;
  calls_made : list Call
}.

(** The lines from ["Keywords" in metadata] to [return metadata]. *)
Definition with_processed_keywords (banned_file : option str)
    (metadata : Json) (w : World) (calls : list Call) : Analysis :=
  let raised := {| analysis := Some None; service_then := w;
                   calls_made := calls |} in
  let unchanged := {| analysis := Some (Some metadata); service_then := w;
                      calls_made := calls |} in
  match json_contains (lit "Keywords") metadata with
  | None => raised
  | Some false => unchanged
  | Some true =>
      match metadata with
      | JObject members =>
          match item (lit "Keywords") members with
          | None => raised
          | Some v =>
              if json_truthy v then
                match v with
                | JString keywords_raw =>
                    let out := process_keywords World generate_content
                                 banned_file keywords_raw w in
                    {| analysis :=
                         Some (Some (JObject
                                 (set_item (lit "Keywords")
                                    (JString (returned out)) members)));
                       service_then := service_after out;
                       calls_made := calls ++ map Rephrase (prompts out) |}
                | _ => raised
                end
              else unchanged
          end
      | _ => raised
      end
  end.

Definition analyze_audio_file (rounds : nat) (banned_file : option str)
    (file_path catalog : str) (w : World) : Analysis :=
  match upload_file file_path w with
  | (None, w1) =>
      {| analysis := Some None; service_then := w1;
         calls_made := [UploadFile file_path] |}
  | (Some uploaded, w1) =>
      match await rounds uploaded w1 [UploadFile file_path] with
      | (StillProcessing, w2, calls) =>
          {| analysis := None; service_then := w2; calls_made := calls |}
      | (PollRaised, w2, calls) =>
          {| analysis := Some None; service_then := w2; calls_made := calls |}
      | (Ready audio_file, w2, calls) =>
          if str_eqb (state_name audio_file) (lit "FAILED") then
            {| analysis := Some None; service_then := w2; calls_made := calls |}
          else
            let analysis_prompt := generate_keywords_analysis_prompt catalog in
            let calls :=
              calls ++ [GenerateContent analysis_prompt (file_name audio_file)] in
            match analyze_audio analysis_prompt audio_file w2 with
            | (None, w3) =>
                {| analysis := Some None; service_then := w3;
                   calls_made := calls |}
            | (Some response_text, w3) =>
                let calls := calls ++ [DeleteFile (file_name audio_file)] in
                match delete_file (file_name audio_file) w3 with
                | (false, w4) =>
                    {| analysis := Some None; service_then := w4;
                       calls_made := calls |}
                | (true, w4) =>
                    match response_text with
                    | None =>
                        {| analysis := Some None; service_then := w4;
                           calls_made := calls |}
                    | Some text =>
                        match loads (unfence text) with
                        | None =>
                            {| analysis := Some None; service_then := w4;
                               calls_made := calls |}
                        | Some metadata =>
                            with_processed_keywords banned_file metadata
                              w4 calls
                        end
                    end
                end
            end
      end
  end.

End AudioAnalysis.

Arguments JNull {Number}.
Arguments JBool {Number}.
Arguments JNumber {Number}.
Arguments JString {Number}.
Arguments JArray {Number}.
Arguments JObject {Number}.
Arguments analysis {Number World}.
Arguments service_then {Number World}.
Arguments calls_made {Number World}.

(** ** The album-description prompt (prompts.py, and Tab 03 of app.py) *)

Definition newline : ascii := "010"%char.

(** [self.personas.get(name, "")] *)
Definition persona (personas : list (str * str)) (name : str) : str :=
  match find (fun kv => str_eqb (fst kv) name) personas with
  | Some kv => snd kv
  | None => []
  end.

Definition generate_album_description_prompt (personas : list (str * str))
    (all_track_descriptions : list str) (catalog : str) : str * str :=
  let arb_voice := persona personas (lit "Arbitrator") in
  let system_instruction :=
    [newline] ++ lit "        You are the Arbitrator (" ++ arb_voice
    ++ lit ")." ++ [newline]
    ++ lit "        Based on the provided track descriptions for the new '"
    ++ catalog
    ++ lit "' album, synthesize everything into EXACTLY ONE powerful, punchy sentence that summarizes the entire album's vibe and utility. Do not write more than one sentence."
    ++ [newline] ++ lit "        " in
  let descriptions_text :=
    join [newline] (map (fun desc => lit "- " ++ desc) all_track_descriptions) in
  let task_prompt :=
    lit "Track Descriptions:" ++ [newline] ++ descriptions_text in
  (system_instruction, task_prompt).

(** The request Tab 03 builds from the tracks of the session. *)
Definition album_description_request (personas : list (str * str))
    (catalog : str) (records : list Track) : str * str :=
  generate_album_description_prompt personas
    (map (fun t => get (Track_Description t) []) records) catalog.

(** ** Services for running the audio analysis on concrete input *)

Definition ready_upload (path : str) (w : unit)
  : option RemoteFile * unit :=
  (Some {| file_name := lit "remote_file_id"; state_name := lit "ACTIVE" |}, w).

Definition no_poll (name : str) (w : unit) : option RemoteFile * unit :=
  (None, w).

Definition answering (text : str) (prompt : str) (f : RemoteFile) (w : unit)
  : option (option str) * unit :=
  (Some (Some text), w).

Definition deleting (name : str) (w : unit) : bool * unit := (true, w).

Definition nonzero (n : nat) : bool := negb (n =? 0).

Definition test_track : list (str * Json nat) :=
  [ (lit "Title", JString (lit "Test Track"));
    (lit "Composer", JString []);
    (lit "Keywords", JString (lit "key1; key2"));
    (lit "Description", JString (lit "Desc"));
    (lit "Best_Use", JString (lit "Trailer")) ].

(** * Vocabulary of the specification *)

(** A predicate on characters that does not look at the case. *)
Definition case_blind (p : ascii -> bool) : Prop :=
  forall c, p (Char.lower c) = p c /\ p (Char.upper c) = p c.

(** A predicate on characters that [str.title] cannot change: it has the
    same value on a character and on what becomes of it. *)
Definition title_blind (p : ascii -> bool) : Prop :=
  forall c,
    p (Char.lower c) = p c
    /\ forallb (fun d => Bool.eqb (p d) (p c)) (Char.to_title c) = true.

Definition free_of (sep : ascii -> bool) (s : str) : Prop :=
  Forall (fun c => sep c = false) s.

(** A string that is not empty and has no whitespace at either end. *)
Definition trimmed (s : str) : Prop :=
  match s with [] => False | c :: _ => Char.isspace c = false end
  /\ match rev s with [] => False | c :: _ => Char.isspace c = false end.

(** What every phrase of [kw_list] is: trimmed, and free of commas and
    semicolons. *)
Definition clean (p : str) : Prop :=
  trimmed p /\ free_of Char.is_comma_or_semicolon p.

(** What every piece of [split] is: not empty and free of whitespace. *)
Definition word (w : str) : Prop := truthy w = true /\ free_of Char.isspace w.

(** The test that sends a phrase to the rewriter. *)
Definition long_phrase (kw : str) : bool := 2 <? count Char.space kw.

(** What the first loop makes of one phrase: the phrase itself, or the
    stripped, non-empty answer of the service to its prompt. *)
Definition corrected_from {World : Type}
    (generate_content : str -> World -> option str * World)
    (kw c : str) : Prop :=
  c = kw
  \/ (long_phrase kw = true
      /\ exists w text w',
           generate_content (get_harvest_loop_prompt kw) w = (Some text, w')
           /\ c = strip text /\ c <> []).

(** A phrase is banned for the normalizer when one of its lowercase words
    is a global ban, or a catalog entry occurs inside its lowercase text. *)
Definition banned_phrase (catalog : list str) (kw : str) : Prop :=
  (exists word, In word (split (lower kw)) /\ In word global_bans)
  \/ (exists ban, In ban catalog /\ Substring ban (lower kw)).

(** A phrase in its final form: clean, short, not banned and title-cased. *)
Definition settled (catalog : list str) (q : str) : Prop :=
  clean q
  /\ long_phrase q = false
  /\ List.length (split q) <= 3
  /\ passes_ban_check catalog q = true
  /\ title q = q.

(** A text is banned for the validator when some entry of the ban set
    occurs inside its lowercase form. *)
Definition banned_text (banned : list str) (text : str) : Prop :=
  exists ban, In ban banned /\ Substring ban (lower text).

(** The error list of [validate_data], part by part. *)
Definition album_errors (banned : list str) (data : AlbumContent) : list str :=
  (if any_in banned (lower (get (album_description data) []))
   then [Msg.album_description] else [])
  ++ (if any_in banned (lower (get (album_name data) []))
      then [Msg.album_name] else [])
  ++ (if is_empty (get (tracks data) []) then [Msg.no_tracks] else []).

(** Every message about a track opens the same way. *)
Definition track_message (m : str) : Prop :=
  exists rest, m = lit "ERROR: Track '" ++ rest.

Definition ends_with (m suffix : str) : Prop := exists before, m = before ++ suffix.

(** A message of the Antigravity check, for some track and first word. *)
Definition antigravity_message (m : str) : Prop :=
  exists title w, m = Msg.antigravity title w.

(** The list [final_keywords] that [process_keywords] joins. *)
Definition final_keywords {World : Type}
    (generate_content : str -> World -> option str * World)
    (banned_file : option str) (keywords_raw : str) (w : World) : list str :=
  fold_left (filter_step (catalog_bans banned_file))
    (corrected_keywords
       (correct_all World generate_content (kw_list keywords_raw) w))
    [].

(** Nothing but separators and whitespace. *)
Definition blank (s : str) : Prop :=
  Forall (fun c => Char.is_comma_or_semicolon c || Char.isspace c = true) s.

(** A track without a title, with a keyword of four spaces and a
    description opening with an article. *)
Definition untitled_track : Track :=
  {| Title := None; Keywords := Some (lit "a  b  c");
     Track_Description := Some (lit "The end.") |}.

(** What the validator requires of one keyword piece and of one track. *)
Definition keyword_ok (banned : list str) (piece : str) : Prop :=
  count Char.space (strip piece) <= 2 /\ ~ banned_text banned (strip piece).

Definition track_ok (banned : list str) (t : Track) : Prop :=
  Forall (keyword_ok banned) (split_at Char.is_comma (get (Keywords t) []))
  /\ ~ In (first_word_of (strip (get (Track_Description t) []))) articles.

(** ** The export gate of the front end (app.py, Tab 07) *)

(** What a cell of the session's track table holds: text, or, where a
    data editor of Tab 01 or Tab 02 has left the cell empty (or the analysed
    metadata had a null), one of the missing values [None] and NaN;
    [Missing] is a record without the key. *)
Inductive Cell :=
| Missing
| IsNone
| IsNaN
| Text (s : str).

Record Row := {
  row_title : Cell;
  row_keywords : Cell;
  row_description : Cell
}.

(** [st.session_state.app_data]: the five keys are always there, and the
    four texts are strings. *)
Record Session := {
  session_tracks : list Row;
  session_album_description : str;
  session_album_name : str;
  session_cover_art : str;
  session_mailchimp_intro : str
}.

(** [track.get('Title', default)] as the f-strings of the messages print
    it. *)
Definition printed (c : Cell) (default : str) : str :=
  match c with
  | Missing => default
  | IsNone => lit "None"
  | IsNaN => lit "nan"
  | Text s => s
  end.

(** One round of the validator's loop over the tracks, on a row of the
    session; [None] is the [AttributeError] of a missing value, which has
    neither [split] nor [strip].  [None] and the default [''] are falsy,
    NaN is truthy. *)
Definition check_row (banned : list str) (errors : list str)
    (entry : nat * Row) : option (list str) :=
  let (i, row) := entry in
  let title := printed (row_title row) (lit "Track " ++ str_of_nat (i + 1)) in
  let after_keywords :=
    match row_keywords row with
    | Text kw_str =>
        Some (if truthy kw_str
              then fold_left (check_keyword banned title)
                             (split_at Char.is_comma kw_str) errors
              else errors)
    | Missing | IsNone => Some errors
    | IsNaN => None
    end in
  match after_keywords with
  | None => None
  | Some errors =>
      let stripped :=
        match row_description row with
        | Text s => Some (strip s)
        | Missing => Some (strip [])
        | IsNone | IsNaN => None
        end in
      match stripped with
      | None => None
      | Some desc =>
          Some (if truthy desc then
                  let first_word := first_word_of desc in
                  if member first_word articles
                  then errors ++ [Msg.antigravity title first_word]
                  else errors
                else errors)
      end
  end.

(** [validate_data] on the session: [None] when it raises. *)
Definition validate_session (banned_file : option str) (app_data : Session)
  : option (bool * list str) :=
  let banned := validator_bans banned_file in
  let tracks := session_tracks app_data in
  let looped :=
    fold_left (fun acc entry =>
                 match acc with
                 | Some errors => check_row banned errors entry
                 | None => None
                 end)
              (enumerate tracks) (Some []) in
  match looped with
  | None => None
  | Some errors =>
      let album_desc := lower (session_album_description app_data) in
      let errors :=
        if any_in banned album_desc
        then errors ++ [Msg.album_description] else errors in
      let album_name := lower (session_album_name app_data) in
      let errors :=
        if any_in banned album_name
        then errors ++ [Msg.album_name] else errors in
      let errors :=
        if is_empty tracks
        then errors ++ [Msg.no_tracks] else errors in
      Some (List.length errors =? 0, errors)
  end.

Definition row_cell (c : Column) (row : Row) : Cell :=
  match c with
  | ColTitle => row_title row
  | ColKeywords => row_keywords row
  | ColDescription => row_description row
  end.

Definition has_key (c : Cell) : bool :=
  match c with Missing => false | _ => true end.

(** What the frame holds for a cell: the text, or NaN. *)
Definition frame_cell (c : Cell) : option str :=
  match c with Text s => Some s | _ => None end.

(** [pd.DataFrame(rows)[[c1, c2]]] on rows of the session: a key some row
    carries is a column, whatever the row holds for it. *)
Definition select_rows (session_rows : list Row) (cs : list Column)
  : option Frame :=
  if forallb (fun c => existsb (fun row => has_key (row_cell c row))
                               session_rows) cs
  then Some {| columns := map column_name cs;
               rows := map (fun row =>
                              map (fun c => frame_cell (row_cell c row)) cs)
                           session_rows |}
  else None.

(** [compile_final_package] on the session: [None] when it raises. *)
Definition compile_session (to_csv : Frame -> str) (app_data : Session)
  : option Archive.t :=
  let text_members :=
    [ (Archive.album_description, session_album_description app_data);
      (Archive.album_name, session_album_name app_data);
      (Archive.cover_art, session_cover_art app_data);
      (Archive.mailchimp, session_mailchimp_intro app_data) ] in
  match session_tracks app_data with
  | [] => Some text_members
  | session_rows =>
      match select_rows session_rows [ColTitle; ColKeywords] with
      | None => None
      | Some df_kw =>
          match select_rows session_rows [ColTitle; ColDescription] with
          | None => None
          | Some df_desc =>
              Some ([ (Archive.track_keywords, to_csv df_kw);
                      (Archive.track_descriptions, to_csv df_desc) ]
                    ++ text_members)
          end
      end
  end.

(** What the tab does: it stops with the exception of the validator, or
    shows the errors with the export blocked, or offers the download of the
    compiled package ([None] when compiling raised). *)
Inductive GateOutcome :=
| Raised
| Blocked (errors : list str)
| Package (archive : option Archive.t).

Definition final_export_gate (to_csv : Frame -> str)
    (banned_file : option str) (app_data : Session) : GateOutcome :=
  match validate_session banned_file app_data with
  | None => Raised
  | Some (passed, errors) =>
      if negb passed then Blocked errors
      else Package (compile_session to_csv app_data)
  end.

(** A row on which the validator raises. *)
Definition raising (row : Row) : bool :=
  match row_keywords row, row_description row with
  | IsNaN, _ => true
  | _, (IsNone | IsNaN) => true
  | _, _ => false
  end.

(** A row as the dictionary the validator reads when it does not raise. *)
Definition as_track (row : Row) : Track :=
  {| Title :=
       match row_title row with
       | Missing => None
       | c => Some (printed c [])
       end;
     Keywords := frame_cell (row_keywords row);
     Track_Description := frame_cell (row_description row) |}.

Definition as_album (app_data : Session) : AlbumContent :=
  {| tracks := Some (map as_track (session_tracks app_data));
     album_description := Some (session_album_description app_data);
     album_name := Some (session_album_name app_data);
     cover_art := Some (session_cover_art app_data);
     mailchimp_intro := Some (session_mailchimp_intro app_data) |}.

(** A session whose second row has lost its description in the editor. *)
Definition edited_session : Session :=
  {| session_tracks :=
       [ {| row_title := Text (lit "Dawn");
            row_keywords := Text (lit "Soft Piano");
            row_description := Text (lit "Slow piano opens the day.") |};
         {| row_title := Text (lit "Dusk");
            row_keywords := IsNone;
            row_description := IsNaN |} ];
     session_album_description := lit "Quiet mornings.";
     session_album_name := lit "First Light";
     session_cover_art := [];
     session_mailchimp_intro := [] |}.

(** * Properties *)

(** ** Characters *)

Ltac by_char_table c :=
  destruct c as [[|] [|] [|] [|] [|] [|] [|] [|]]; vm_compute; reflexivity.

Lemma isspace_case_blind : case_blind Char.isspace.
Proof. intro c; split; by_char_table c. Qed.

Lemma isspace_title_blind : title_blind Char.isspace.
Proof. intro c; split; by_char_table c. Qed.

Lemma separator_title_blind : title_blind Char.is_comma_or_semicolon.
Proof. intro c; split; by_char_table c. Qed.

Lemma comma_title_blind : title_blind Char.is_comma.
Proof. intro c; split; by_char_table c. Qed.

Lemma lower_lower_char c : Char.lower (Char.lower c) = Char.lower c.
Proof. by_char_table c. Qed.

Lemma iscased_lower_char c : Char.iscased (Char.lower c) = Char.iscased c.
Proof. by_char_table c. Qed.

Lemma to_title_lower_char c : Char.to_title (Char.lower c) = Char.to_title c.
Proof. by_char_table c. Qed.

(** Whitespace is its own title and lower case, and is not cased. *)
Lemma space_block (c : ascii) (b : bool) :
  Char.isspace c = true ->
  (if b then [Char.lower c] else Char.to_title c) = [c]
  /\ Char.iscased c = false.
Proof.
  destruct b; destruct c as [[|] [|] [|] [|] [|] [|] [|] [|]]; vm_compute;
    solve [ discriminate | split; reflexivity ].
Qed.

Lemma count_block (c : ascii) (b : bool) :
  count Char.space (if b then [Char.lower c] else Char.to_title c)
  = count Char.space [c].
Proof. destruct b; by_char_table c. Qed.

(** Away from the sharp s the title case is the upper case. *)
Lemma plain_char (c : ascii) :
  Char.is_sharp_s c = false ->
  Char.to_title c = [Char.upper c]
  /\ Char.to_title (Char.upper c) = [Char.upper c]
  /\ Char.iscased (Char.upper c) = Char.iscased c.
Proof.
  destruct c as [[|] [|] [|] [|] [|] [|] [|] [|]]; vm_compute;
    solve [ discriminate | repeat split; reflexivity ].
Qed.

Lemma isascii_plain (c : ascii) :
  Char.isascii c = true -> Char.is_sharp_s c = false.
Proof.
  destruct c as [[|] [|] [|] [|] [|] [|] [|] [|]]; vm_compute;
    solve [ discriminate | reflexivity ].
Qed.

Lemma lower_upper_char c : Char.lower (Char.upper c) = Char.lower c.
Proof. by_char_table c. Qed.

Lemma isword_lower_char c : Char.isword (Char.lower c) = Char.isword c.
Proof. by_char_table c. Qed.

(** ** The cases of test_keyword_engine.py *)

Example test_process_keywords_formatting :
  normalize_offline None
    "dark thriller, intense action,   CHASE SCENE,epic, huge"
  = lit "Dark Thriller, Intense Action, Chase Scene"
  /\ prompts (process_keywords unit failing_service None
               (lit "dark thriller, intense action,   CHASE SCENE,epic, huge")
               tt) = [].
Proof. split; vm_compute; reflexivity. Qed.

Example test_process_keywords_auto_correction :
  let raw := lit "dark thriller, end of the world today" in
  let mock :=
    table_service
      [(get_harvest_loop_prompt (lit "end of the world today"),
        lit "End Of World")] in
  returned (process_keywords unit mock None raw tt)
  = lit "Dark Thriller, End Of World"
  /\ List.length (prompts (process_keywords unit mock None raw tt)) = 1.
Proof. split; vm_compute; reflexivity. Qed.

Example test_process_keywords_catalog_ban :
  let banned_file :=
    Some (lit "forbidden word" ++ ["010"%char] ++ lit "another ban"
          ++ ["010"%char]) in
  catalog_bans banned_file = [lit "forbidden word"; lit "another ban"]
  /\ normalize_offline banned_file "dark thriller, forbidden word, keep this"
     = lit "Dark Thriller, Keep This".
Proof. split; vm_compute; reflexivity. Qed.

(** ** Strings: equality, membership, containment *)

Lemma str_eqb_eq (a b : str) : str_eqb a b = true <-> a = b.
Proof.
  revert b; induction a as [|x a IH]; intros [|y b]; simpl;
    try (split; [discriminate | discriminate]); try tauto.
  rewrite andb_true_iff, Ascii.eqb_eq, IH.
  split; [intros [-> ->]; reflexivity | intros H; inversion H; auto].
Qed.

Lemma member_In (x : str) (l : list str) : member x l = true <-> In x l.
Proof.
  unfold member. rewrite existsb_exists. split.
  - intros (y & Hy & E). apply str_eqb_eq in E. subst. exact Hy.
  - intros H. exists x. split; [exact H | apply str_eqb_eq; reflexivity].
Qed.

Lemma startswith_spec (s prefix : str) :
  startswith s prefix = true <-> exists rest, s = prefix ++ rest.
Proof.
  revert s; induction prefix as [|p prefix IH]; intros s; simpl.
  - split; [intros _; exists s; reflexivity | reflexivity].
  - destruct s as [|c s].
    + split; [discriminate | intros (r & E); discriminate].
    + rewrite andb_true_iff, Ascii.eqb_eq, IH. split.
      * intros (-> & r & ->). exists r. reflexivity.
      * intros (r & E). inversion E. split; [reflexivity | exists r; reflexivity].
Qed.

Lemma contains_spec (hay needle : str) :
  contains hay needle = true <-> Substring needle hay.
Proof.
  unfold Substring. induction hay as [|c hay IH]; simpl.
  - rewrite orb_false_r, startswith_spec. split.
    + intros (r & E). exists [], r. exact E.
    + intros (b & a & E). destruct b; [exists a; exact E | discriminate].
  - rewrite orb_true_iff, IH, startswith_spec. split.
    + intros [(r & E) | (b & a & E)].
      * exists [], r. exact E.
      * exists (c :: b), a. simpl. rewrite E. reflexivity.
    + intros (b & a & E). destruct b as [|d b].
      * left. exists a. exact E.
      * right. simpl in E. inversion E. exists b, a. reflexivity.
Qed.

Lemma any_in_spec (banned : list str) (text : str) :
  any_in banned text = true <-> exists b, In b banned /\ Substring b text.
Proof.
  unfold any_in. rewrite existsb_exists.
  split; intros (b & Hb & H); exists b; split; auto; apply contains_spec; exact H.
Qed.

(** ** Strings: case *)

Lemma title_from_cons (b : bool) (c : ascii) (r : str) :
  title_from b (c :: r)
  = (if b then [Char.lower c] else Char.to_title c)
    ++ title_from (Char.iscased c) r.
Proof. reflexivity. Qed.

Lemma title_block_free (p : ascii -> bool) (b : bool) (c : ascii) :
  title_blind p -> p c = false ->
  free_of p (if b then [Char.lower c] else Char.to_title c).
Proof.
  intros Hp Hc. destruct (Hp c) as [Hl Ht]. unfold free_of. destruct b.
  - constructor; [congruence | constructor].
  - rewrite forallb_forall in Ht. apply Forall_forall. intros d Hd.
    apply Ht, eqb_prop in Hd. congruence.
Qed.

(** [str.title] brings in no character of a class it cannot change. *)
Lemma title_from_free (p : ascii -> bool) :
  title_blind p -> forall s b, free_of p s -> free_of p (title_from b s).
Proof.
  intros Hp s. induction s as [|c s IH]; intros b H; [constructor|].
  inversion H; subst. rewrite title_from_cons. apply Forall_app. split.
  - apply title_block_free; assumption.
  - apply IH. assumption.
Qed.

Lemma title_from_truthy (b : bool) (s : str) :
  truthy (title_from b s) = truthy s.
Proof.
  destruct s as [|c s]; [reflexivity|]. rewrite title_from_cons.
  destruct b; [reflexivity|]. unfold Char.to_title.
  destruct (Char.is_sharp_s c); reflexivity.
Qed.

Lemma lower_block (c : ascii) (b : bool) :
  Char.is_sharp_s c = false ->
  map Char.lower (if b then [Char.lower c] else Char.to_title c)
  = [Char.lower c].
Proof.
  intros H. destruct b; simpl.
  - rewrite lower_lower_char. reflexivity.
  - destruct (plain_char c H) as (-> & _). simpl.
    rewrite lower_upper_char. reflexivity.
Qed.

(** Lower-casing undoes the title case, where no sharp s is involved. *)
Lemma lower_title_from (s : str) (b : bool) :
  free_of Char.is_sharp_s s -> lower (title_from b s) = lower s.
Proof.
  unfold lower. intros H. revert b.
  induction H as [|c s Hc Hs IH]; intros b; [reflexivity|].
  rewrite title_from_cons, map_app, IH, (lower_block c b Hc). reflexivity.
Qed.

Lemma lower_title (s : str) :
  free_of Char.is_sharp_s s -> lower (title s) = lower s.
Proof. apply lower_title_from. Qed.

Lemma isascii_free (s : str) : isascii s = true -> free_of Char.is_sharp_s s.
Proof.
  unfold isascii, free_of. rewrite forallb_forall, Forall_forall.
  intros H c Hc. apply isascii_plain, H, Hc.
Qed.

Lemma title_of_block (b : bool) (c : ascii) (t : str) :
  title_from b ((if b then [Char.lower c] else Char.to_title c) ++ t)
  = (if b then [Char.lower c] else Char.to_title c)
    ++ title_from (Char.iscased c) t.
Proof.
  destruct b.
  - simpl app. rewrite title_from_cons, lower_lower_char, iscased_lower_char.
    reflexivity.
  - destruct (Char.is_sharp_s c) eqn:E.
    + apply Ascii.eqb_eq in E. subst c. reflexivity.
    + destruct (plain_char c E) as (E1 & E2 & E3).
      rewrite E1. simpl app. rewrite title_from_cons, E2, E3. reflexivity.
Qed.

Lemma title_from_idempotent (s : str) (b : bool) :
  title_from b (title_from b s) = title_from b s.
Proof.
  revert b. induction s as [|c s IH]; intros b; [reflexivity|].
  rewrite title_from_cons, title_of_block, IH. reflexivity.
Qed.

Lemma title_idempotent (s : str) : title (title s) = title s.
Proof. apply title_from_idempotent. Qed.

Lemma lower_idempotent (s : str) : lower (lower s) = lower s.
Proof.
  unfold lower. rewrite map_map. apply map_ext. intros c. apply lower_lower_char.
Qed.

(** ** Strings: functions that commute with a change of case *)

Lemma drop_while_map (p : ascii -> bool) (f : ascii -> ascii) (s : str) :
  (forall c, p (f c) = p c) ->
  drop_while p (map f s) = map f (drop_while p s).
Proof.
  intros Hf. induction s as [|c s IH]; simpl; [reflexivity|].
  rewrite Hf. destruct (p c); [exact IH | reflexivity].
Qed.

Lemma strip_map (f : ascii -> ascii) (s : str) :
  (forall c, Char.isspace (f c) = Char.isspace c) ->
  strip (map f s) = map f (strip s).
Proof.
  intros Hf. unfold strip, lstrip, rstrip.
  rewrite <- map_rev, (drop_while_map _ _ _ Hf), <- map_rev.
  apply drop_while_map. exact Hf.
Qed.

Lemma split_at_map (sep : ascii -> bool) (f : ascii -> ascii) (s : str) :
  (forall c, sep (f c) = sep c) ->
  split_at sep (map f s) = map (map f) (split_at sep s).
Proof.
  intros Hf. induction s as [|c s IH]; simpl; [reflexivity|].
  rewrite Hf, IH. destruct (sep c); [reflexivity|].
  destruct (split_at sep s); reflexivity.
Qed.

Lemma split_lower (s : str) : split (lower s) = map lower (split s).
Proof.
  unfold split, lower.
  rewrite split_at_map by (intro c; apply isspace_case_blind).
  induction (split_at Char.isspace s) as [|w ws IH]; simpl; [reflexivity|].
  destruct w; simpl; rewrite IH; reflexivity.
Qed.

Lemma count_app (c : ascii) (a b : str) : count c (a ++ b) = count c a + count c b.
Proof.
  induction a as [|d a IH]; simpl; [reflexivity|]. rewrite IH. lia.
Qed.

Lemma count_title_from (s : str) (b : bool) :
  count Char.space (title_from b s) = count Char.space s.
Proof.
  revert b. induction s as [|c s IH]; intros b; [reflexivity|].
  rewrite title_from_cons, count_app, IH, count_block. simpl. lia.
Qed.

Lemma count_title (s : str) : count Char.space (title s) = count Char.space s.
Proof. apply count_title_from. Qed.

(** ** Strings: stripping *)

Lemma drop_while_suffix (p : ascii -> bool) (s : str) :
  exists dropped, s = dropped ++ drop_while p s.
Proof.
  induction s as [|c s (d & IH)]; simpl.
  - exists []. reflexivity.
  - destruct (p c).
    + exists (c :: d). simpl. rewrite <- IH. reflexivity.
    + exists []. reflexivity.
Qed.

Lemma drop_while_head (p : ascii -> bool) (s : str) (c : ascii) (r : str) :
  drop_while p s = c :: r -> p c = false.
Proof.
  induction s as [|d s IH]; simpl; [discriminate|].
  destruct (p d) eqn:E; [exact IH|].
  intros H. inversion H. subst. exact E.
Qed.

Lemma drop_while_fixed (p : ascii -> bool) (c : ascii) (r : str) :
  p c = false -> drop_while p (c :: r) = c :: r.
Proof. intros H. simpl. rewrite H. reflexivity. Qed.

Lemma drop_while_snoc (p : ascii -> bool) (s : str) (c : ascii) :
  p c = true ->
  drop_while p (s ++ [c]) =
  match drop_while p s with
  | [] => []
  | d :: r => (d :: r) ++ [c]
  end.
Proof.
  intros Hc. induction s as [|d s IH]; simpl.
  - rewrite Hc. reflexivity.
  - destruct (p d); [exact IH | reflexivity].
Qed.

Lemma trimmed_strip (s : str) : trimmed s -> strip s = s.
Proof.
  intros [H1 H2]. unfold strip, lstrip, rstrip.
  destruct (rev s) as [|c r] eqn:E; [contradiction|].
  rewrite (drop_while_fixed _ _ _ H2), <- E, rev_involutive.
  destruct s as [|d s]; [contradiction|].
  apply drop_while_fixed. exact H1.
Qed.

Lemma strip_trimmed (s : str) : strip s <> [] -> trimmed (strip s).
Proof.
  unfold strip, lstrip, rstrip. intros Hne.
  set (u := drop_while Char.isspace (rev s)) in *.
  destruct (drop_while_suffix Char.isspace (rev u)) as (d & Hd).
  set (v := drop_while Char.isspace (rev u)) in *.
  split.
  - destruct v as [|c r] eqn:Ev; [contradiction|].
    apply (drop_while_head _ _ _ _ Ev).
  - assert (Hu : u = rev v ++ rev d).
    { rewrite <- (rev_involutive u), Hd, rev_app_distr. reflexivity. }
    destruct (rev v) as [|c r] eqn:Ev.
    + apply (f_equal (@rev ascii)) in Ev. rewrite rev_involutive in Ev.
      simpl in Ev. contradiction.
    + simpl in Hu. apply (drop_while_head _ _ _ _ Hu).
Qed.

Lemma strip_idempotent (s : str) : strip (strip s) = strip s.
Proof.
  destruct (strip s) as [|c r] eqn:E; [reflexivity|].
  rewrite <- E. apply trimmed_strip, strip_trimmed. rewrite E. discriminate.
Qed.

Lemma strip_cons_space (c : ascii) (s : str) :
  Char.isspace c = true -> strip (c :: s) = strip s.
Proof.
  intros Hc. unfold strip, lstrip, rstrip. simpl rev.
  rewrite (drop_while_snoc _ _ _ Hc).
  destruct (drop_while Char.isspace (rev s)) as [|d r]; [reflexivity|].
  rewrite rev_app_distr. simpl. rewrite Hc. reflexivity.
Qed.

Lemma trimmed_class (s t : str) :
  map Char.isspace s = map Char.isspace t -> trimmed s -> trimmed t.
Proof.
  intros H [H1 H2]. split.
  - destruct s, t; simpl in *; try discriminate; try contradiction.
    inversion H. congruence.
  - apply (f_equal (@rev bool)) in H. rewrite <- !map_rev in H.
    destruct (rev s), (rev t); simpl in *; try discriminate; try contradiction.
    inversion H. congruence.
Qed.

Lemma title_from_head (b : bool) (c : ascii) (r : str) :
  exists d rest,
    title_from b (c :: r) = d :: rest /\ Char.isspace d = Char.isspace c.
Proof.
  rewrite title_from_cons. destruct b.
  - exists (Char.lower c), (title_from (Char.iscased c) r).
    split; [reflexivity | apply isspace_case_blind].
  - unfold Char.to_title. destruct (Char.is_sharp_s c) eqn:E.
    + apply Ascii.eqb_eq in E. subst c. eexists. eexists.
      split; reflexivity.
    + exists (Char.upper c), (title_from (Char.iscased c) r).
      split; [reflexivity | apply isspace_case_blind].
Qed.

Lemma title_from_last (b : bool) (s : str) (c : ascii) :
  exists rest d,
    title_from b (s ++ [c]) = rest ++ [d] /\ Char.isspace d = Char.isspace c.
Proof.
  revert b. induction s as [|a s IH]; intros b.
  - simpl app. rewrite title_from_cons. simpl title_from. rewrite app_nil_r.
    destruct b.
    + exists [], (Char.lower c). split; [reflexivity | apply isspace_case_blind].
    + unfold Char.to_title. destruct (Char.is_sharp_s c) eqn:E.
      * apply Ascii.eqb_eq in E. subst c.
        exists [ "S"%char ], "s"%char. split; reflexivity.
      * exists [], (Char.upper c).
        split; [reflexivity | apply isspace_case_blind].
  - destruct (IH (Char.iscased a)) as (rest & d & E & Hd).
    exists ((if b then [Char.lower a] else Char.to_title a) ++ rest), d.
    rewrite <- app_comm_cons, title_from_cons, E, app_assoc.
    split; [reflexivity | exact Hd].
Qed.

Lemma trimmed_title (s : str) : trimmed s -> trimmed (title s).
Proof.
  unfold title. intros [H1 H2]. split.
  - destruct s as [|c r]; [contradiction|].
    destruct (title_from_head false c r) as (d & rest & E & Hd).
    rewrite E. congruence.
  - destruct (rev s) as [|c r] eqn:E; [contradiction|].
    assert (Es : s = rev r ++ [c])
      by (rewrite <- (rev_involutive s), E; reflexivity).
    destruct (title_from_last false (rev r) c) as (rest & d & E' & Hd).
    rewrite Es, E', rev_app_distr. simpl. congruence.
Qed.

(** ** Strings: splitting and joining *)

Lemma free_of_drop_while (sep p : ascii -> bool) (s : str) :
  free_of sep s -> free_of sep (drop_while p s).
Proof.
  unfold free_of. intros H.
  destruct (drop_while_suffix p s) as (d & E).
  rewrite E in H. apply Forall_app in H. tauto.
Qed.

Lemma free_of_strip (sep : ascii -> bool) (s : str) :
  free_of sep s -> free_of sep (strip s).
Proof.
  intros H. unfold strip, lstrip, rstrip.
  apply free_of_drop_while. unfold free_of. apply Forall_rev.
  apply free_of_drop_while. unfold free_of. apply Forall_rev. exact H.
Qed.

Lemma split_at_not_nil (sep : ascii -> bool) (s : str) : split_at sep s <> [].
Proof.
  induction s as [|c s IH]; simpl; [discriminate|].
  destruct (sep c); [discriminate|].
  destruct (split_at sep s); discriminate.
Qed.

Lemma split_at_pieces (sep : ascii -> bool) (s : str) :
  Forall (free_of sep) (split_at sep s).
Proof.
  induction s as [|c s IH]; simpl.
  - repeat constructor.
  - destruct (sep c) eqn:E.
    + constructor; [constructor | exact IH].
    + destruct (split_at sep s) as [|w ws].
      * repeat constructor. exact E.
      * inversion IH; subst. constructor; [constructor; assumption | assumption].
Qed.

Lemma split_at_free (sep : ascii -> bool) (s : str) :
  free_of sep s -> split_at sep s = [s].
Proof.
  induction 1 as [|c s Hc Hs IH]; simpl; [reflexivity|].
  rewrite Hc, IH. reflexivity.
Qed.

Lemma split_at_app (sep : ascii -> bool) (w : str) (d : ascii) (rest : str) :
  free_of sep w -> sep d = true ->
  split_at sep (w ++ d :: rest) = w :: split_at sep rest.
Proof.
  intros Hw Hd. induction Hw as [|c w Hc Hw IH]; simpl.
  - rewrite Hd. reflexivity.
  - rewrite Hc, IH. reflexivity.
Qed.

Lemma split_at_cons_other (sep : ascii -> bool) (c : ascii) (s : str) :
  sep c = false ->
  exists w ws, split_at sep s = w :: ws /\ split_at sep (c :: s) = (c :: w) :: ws.
Proof.
  intros Hc. simpl. rewrite Hc.
  destruct (split_at sep s) as [|w ws] eqn:E.
  - exfalso. exact (split_at_not_nil sep s E).
  - exists w, ws. split; reflexivity.
Qed.

(** ** The phrases of a raw keyword string *)

Lemma clean_not_empty (p : str) : clean p -> truthy p = true.
Proof. intros [[H _] _]. destruct p; [contradiction | reflexivity]. Qed.

Lemma kw_list_clean (raw : str) : Forall clean (kw_list raw).
Proof.
  unfold kw_list.
  pose proof (split_at_pieces Char.is_comma_or_semicolon raw) as H.
  induction H as [|k ks Hk Hks IH]; simpl; [constructor|].
  destruct (strip k) as [|c r] eqn:E; simpl; [exact IH|].
  constructor; [|exact IH]. split.
  - apply strip_trimmed. rewrite E. discriminate.
  - apply free_of_strip. exact Hk.
Qed.

Lemma split_at_keeps (P : ascii -> Prop) (sep : ascii -> bool) (s : str) :
  Forall P s -> Forall (Forall P) (split_at sep s).
Proof.
  induction 1 as [|c s Hc Hs IH]; simpl.
  - repeat constructor.
  - destruct (sep c).
    + constructor; [constructor | exact IH].
    + destruct (split_at sep s) as [|w ws]; [repeat constructor; exact Hc|].
      inversion IH; subst. constructor; [constructor; assumption | assumption].
Qed.

Lemma free_of_join (p : ascii -> bool) (sep : str) (ws : list str) :
  free_of p sep -> Forall (free_of p) ws -> free_of p (join sep ws).
Proof.
  intros Hsep. induction 1 as [|w ws Hw Hws IH]; [constructor|].
  destruct ws as [|v ws]; [exact Hw|].
  change (join sep (w :: v :: ws)) with (w ++ sep ++ join sep (v :: ws)).
  unfold free_of in *. rewrite !Forall_app. auto.
Qed.

(** The phrases are made of characters of the raw string. *)
Lemma kw_list_keeps (q : ascii -> bool) (raw : str) :
  free_of q raw -> Forall (free_of q) (kw_list raw).
Proof.
  intros H. unfold kw_list. apply Forall_map.
  pose proof (split_at_keeps _ Char.is_comma_or_semicolon raw H) as K.
  rewrite Forall_forall in *. intros k Hk. apply filter_In in Hk.
  apply free_of_strip, K, Hk.
Qed.

Lemma clean_title (p : str) : clean p -> clean (title p).
Proof.
  intros [H1 H2]. split; [apply trimmed_title; exact H1|].
  apply title_from_free; [apply separator_title_blind | exact H2].
Qed.

Lemma kw_list_single (p : str) : clean p -> kw_list p = [p].
Proof.
  intros Hp. unfold kw_list. destruct Hp as [Ht Hf].
  rewrite (split_at_free _ _ Hf). cbn [filter].
  rewrite (trimmed_strip _ Ht), (clean_not_empty p (conj Ht Hf)).
  cbn [map]. rewrite (trimmed_strip _ Ht). reflexivity.
Qed.

Lemma kw_list_cons_space (c : ascii) (x : str) :
  Char.isspace c = true -> kw_list (c :: x) = kw_list x.
Proof.
  intros Hc. unfold kw_list.
  assert (Hs : Char.is_comma_or_semicolon c = false)
    by (destruct c as [[|] [|] [|] [|] [|] [|] [|] [|]];
        solve [reflexivity | discriminate Hc]).
  destruct (split_at_cons_other _ c x Hs) as (w & ws & E1 & E2).
  rewrite E1, E2. cbn [filter]. rewrite (strip_cons_space _ _ Hc).
  destruct (truthy (strip w)); cbn [map]; rewrite ?(strip_cons_space _ _ Hc);
    reflexivity.
Qed.

Lemma kw_list_app_comma (p x : str) :
  clean p -> kw_list (p ++ Char.comma :: x) = p :: kw_list x.
Proof.
  intros [Ht Hf]. unfold kw_list.
  rewrite (split_at_app _ _ _ _ Hf) by reflexivity. cbn [filter].
  rewrite (trimmed_strip _ Ht), (clean_not_empty p (conj Ht Hf)).
  cbn [map]. rewrite (trimmed_strip _ Ht). reflexivity.
Qed.

(** Splitting what [", ".join] built gives the phrases back. *)
Lemma kw_list_join (ps : list str) :
  Forall clean ps -> kw_list (join (lit ", ") ps) = ps.
Proof.
  induction 1 as [|p ps Hp Hps IH]; [reflexivity|].
  destruct ps as [|q ps].
  - simpl. apply kw_list_single. exact Hp.
  - change (join (lit ", ") (p :: q :: ps))
      with (p ++ Char.comma :: Char.space :: join (lit ", ") (q :: ps)).
    rewrite (kw_list_app_comma _ _ Hp).
    rewrite kw_list_cons_space by reflexivity.
    rewrite IH. reflexivity.
Qed.

(** ** The two loops of [process_keywords] *)

Lemma filter_loop (catalog : list str) (kws acc : list str) :
  fold_left (filter_step catalog) kws acc =
  acc ++ map final_kw (filter (passes_ban_check catalog) kws).
Proof.
  revert acc. induction kws as [|kw kws IH]; intros acc; simpl.
  - rewrite app_nil_r. reflexivity.
  - rewrite IH. unfold filter_step.
    destruct (passes_ban_check catalog kw); simpl;
      [rewrite <- app_assoc|]; reflexivity.
Qed.

Section NormalizerFacts.

Variable World : Type.
Variable generate_content : str -> World -> option str * World.

Local Abbreviation step := (correct_step World generate_content).

Lemma correct_step_short (st : Correcting World) (kw : str) :
  long_phrase kw = false ->
  step st kw =
  {| corrected_keywords := corrected_keywords st ++ [kw];
     service := service st;
     prompts_sent := prompts_sent st |}.
Proof.
  unfold long_phrase, correct_step. intros ->. reflexivity.
Qed.

Lemma correct_step_prompts (st : Correcting World) (kw : str) :
  prompts_sent (step st kw) =
  prompts_sent st ++
    (if long_phrase kw then [get_harvest_loop_prompt kw] else []).
Proof.
  unfold long_phrase, correct_step.
  destruct (2 <? count Char.space kw); simpl.
  - destruct (generate_content _ _) as [[text|] w']; reflexivity.
  - rewrite app_nil_r. reflexivity.
Qed.

Lemma correct_loop_prompts (kws : list str) (st : Correcting World) :
  prompts_sent (fold_left step kws st) =
  prompts_sent st ++ map get_harvest_loop_prompt (filter long_phrase kws).
Proof.
  revert st. induction kws as [|kw kws IH]; intros st; simpl.
  - rewrite app_nil_r. reflexivity.
  - rewrite IH, correct_step_prompts.
    destruct (long_phrase kw); simpl;
      rewrite <- app_assoc; reflexivity.
Qed.

Lemma correct_loop_short (kws : list str) (st : Correcting World) :
  Forall (fun kw => long_phrase kw = false) kws ->
  fold_left step kws st =
  {| corrected_keywords := corrected_keywords st ++ kws;
     service := service st;
     prompts_sent := prompts_sent st |}.
Proof.
  intros H. revert st. induction H as [|kw kws Hkw Hkws IH]; intros st; simpl.
  - rewrite app_nil_r. destruct st; reflexivity.
  - rewrite (correct_step_short _ _ Hkw), IH. simpl.
    rewrite <- app_assoc. reflexivity.
Qed.

Lemma correct_loop_each (kws : list str) (st : Correcting World) :
  exists cs,
    corrected_keywords (fold_left step kws st) = corrected_keywords st ++ cs
    /\ Forall2 (corrected_from generate_content) kws cs.
Proof.
  revert st. induction kws as [|kw kws IH]; intros st; simpl.
  - exists []. rewrite app_nil_r. split; [reflexivity | constructor].
  - destruct (IH (step st kw)) as (cs & E & F).
    assert (Hstep : exists c, corrected_keywords (step st kw)
                              = corrected_keywords st ++ [c]
                              /\ corrected_from generate_content kw c).
    { unfold correct_step, corrected_from, long_phrase.
      destruct (2 <? count Char.space kw) eqn:L.
      - destruct (generate_content _ _) as [[text|] w'] eqn:G; simpl.
        + destruct (strip text) as [|x r] eqn:S; simpl.
          * exists kw. split; [reflexivity | left; reflexivity].
          * exists (x :: r). split; [reflexivity|]. right.
            split; [reflexivity|].
            exists (service st), text, w'. rewrite S.
            repeat split; [exact G | discriminate].
        + exists kw. split; [reflexivity | left; reflexivity].
      - exists kw. split; [reflexivity | left; reflexivity]. }
    destruct Hstep as (c & Ec & Fc).
    exists (c :: cs). split.
    + rewrite E, Ec, <- app_assoc. reflexivity.
    + constructor; assumption.
Qed.

(** The normalizer as a composition: rewrite, filter, finish, join. *)
Lemma process_keywords_eq (banned_file : option str) (raw : str) (w : World) :
  returned (process_keywords World generate_content banned_file raw w) =
  join (lit ", ")
    (map final_kw
       (filter (passes_ban_check (catalog_bans banned_file))
          (corrected_keywords
             (correct_all World generate_content (kw_list raw) w)))).
Proof.
  unfold process_keywords. destruct raw as [|c raw]; [reflexivity|].
  cbn [is_empty returned]. rewrite filter_loop. reflexivity.
Qed.

Lemma process_keywords_prompts (banned_file : option str) (raw : str)
    (w : World) :
  prompts (process_keywords World generate_content banned_file raw w) =
  map get_harvest_loop_prompt (filter long_phrase (kw_list raw)).
Proof.
  unfold process_keywords. destruct raw as [|c raw]; [reflexivity|].
  cbn [is_empty prompts]. unfold correct_all.
  rewrite correct_loop_prompts. reflexivity.
Qed.

(** When no phrase is long the service is left alone. *)
Lemma process_keywords_short (banned_file : option str) (raw : str)
    (w : World) :
  Forall (fun kw => long_phrase kw = false) (kw_list raw) ->
  returned (process_keywords World generate_content banned_file raw w) =
  join (lit ", ")
    (map final_kw
       (filter (passes_ban_check (catalog_bans banned_file)) (kw_list raw))).
Proof.
  intros H. rewrite process_keywords_eq. unfold correct_all.
  rewrite (correct_loop_short _ _ H). reflexivity.
Qed.

End NormalizerFacts.

(** ** The ban test of the normalizer *)

Lemma global_bans_are_words (g : str) : In g global_bans -> split g = [g].
Proof.
  simpl. intros [<-|[<-|[<-|[<-|[<-|[]]]]]]; reflexivity.
Qed.

Lemma passes_ban_check_spec (catalog : list str) (kw : str) :
  passes_ban_check catalog kw = false <-> banned_phrase catalog kw.
Proof.
  unfold passes_ban_check, banned_phrase.
  rewrite !andb_false_iff, !negb_false_iff, orb_true_iff, !existsb_exists.
  split.
  - intros [[[(ban & Hg & Hm) | (ban & Hc & Hs)] | Hm] | Hm].
    + left. exists ban. split; [apply member_In; exact Hm | exact Hg].
    + right. exists ban. split; [exact Hc | apply contains_spec; exact Hs].
    + left. apply member_In in Hm. exists (lower kw). split; [|exact Hm].
      rewrite (global_bans_are_words _ Hm). left. reflexivity.
    + right. apply member_In in Hm. exists (lower kw). split; [exact Hm|].
      exists [], []. rewrite app_nil_r. reflexivity.
  - intros [(word & Hw & Hg) | (ban & Hc & Hs)]; left; left.
    + left. exists word. split; [exact Hg | apply member_In; exact Hw].
    + right. exists ban. split; [exact Hc | apply contains_spec; exact Hs].
Qed.

Lemma passes_ban_check_title (catalog : list str) (kw : str) :
  free_of Char.is_sharp_s kw ->
  passes_ban_check catalog (title kw) = passes_ban_check catalog kw.
Proof.
  intros H. unfold passes_ban_check. rewrite (lower_title _ H). reflexivity.
Qed.

(** ** Words *)

Lemma split_words (s : str) : Forall word (split s).
Proof.
  unfold split.
  pose proof (split_at_pieces Char.isspace s) as H.
  induction H as [|w ws Hw Hws IH]; simpl; [constructor|].
  destruct (truthy w) eqn:E; [|exact IH].
  constructor; [split; assumption | exact IH].
Qed.

Lemma split_join_words (ws : list str) :
  Forall word ws -> split (join (lit " ") ws) = ws.
Proof.
  induction 1 as [|w ws [Hne Hfree] Hws IH]; [reflexivity|].
  destruct ws as [|v ws].
  - simpl. unfold split. rewrite (split_at_free _ _ Hfree). simpl.
    rewrite Hne. reflexivity.
  - change (join (lit " ") (w :: v :: ws))
      with (w ++ Char.space :: join (lit " ") (v :: ws)).
    unfold split in *.
    rewrite (split_at_app _ _ _ _ Hfree) by reflexivity.
    cbn [filter]. rewrite Hne. f_equal. exact IH.
Qed.

Lemma word_title (w : str) : word w -> word (title w).
Proof.
  intros [Hne Hfree]. split.
  - unfold title. rewrite title_from_truthy. exact Hne.
  - apply title_from_free; [apply isspace_title_blind | exact Hfree].
Qed.

(** Whitespace starts [str.title] afresh. *)
Lemma title_from_app (b : bool) (x : str) (c : ascii) (y : str) :
  Char.isspace c = true ->
  title_from b (x ++ c :: y) = title_from b x ++ c :: title_from false y.
Proof.
  intros Hc. revert b. induction x as [|d x IH]; intros b.
  - simpl app. rewrite title_from_cons.
    destruct (space_block c b Hc) as [-> ->]. reflexivity.
  - rewrite <- app_comm_cons, !title_from_cons, IH, app_assoc. reflexivity.
Qed.

Lemma title_join (ws : list str) :
  title (join (lit " ") ws) = join (lit " ") (map title ws).
Proof.
  induction ws as [|w ws IH]; [reflexivity|].
  destruct ws as [|v ws]; [reflexivity|].
  change (join (lit " ") (w :: v :: ws))
    with (w ++ Char.space :: join (lit " ") (v :: ws)).
  change (join (lit " ") (map title (w :: v :: ws)))
    with (title w ++ Char.space :: join (lit " ") (map title (v :: ws))).
  unfold title at 1. rewrite title_from_app by reflexivity.
  fold (title w). fold (title (join (lit " ") (v :: ws))).
  rewrite IH. reflexivity.
Qed.

Lemma title_from_lower (s : str) (b : bool) :
  title_from b (lower s) = title_from b s.
Proof.
  unfold lower. revert b. induction s as [|c s IH]; intros b; [reflexivity|].
  cbn [map].
  rewrite !title_from_cons, IH, lower_lower_char, to_title_lower_char,
    iscased_lower_char.
  reflexivity.
Qed.

Lemma title_lower (s : str) : title (lower s) = title s.
Proof. apply title_from_lower. Qed.

Lemma words_lower (s : str) :
  List.length (split (lower s)) = List.length (split s).
Proof. rewrite split_lower. apply length_map. Qed.

(** ** What a kept phrase becomes *)

Lemma final_kw_short (kw : str) :
  List.length (split kw) <= 3 -> final_kw kw = title kw.
Proof.
  intros H. unfold final_kw. rewrite words_lower.
  destruct (Nat.ltb_spec 3 (List.length (split kw))); [lia | reflexivity].
Qed.

Lemma final_kw_long (kw : str) :
  3 < List.length (split kw) ->
  final_kw kw = join (lit " ") (map title (firstn 3 (split kw))).
Proof.
  intros H. unfold final_kw. rewrite words_lower.
  destruct (Nat.ltb_spec 3 (List.length (split kw))); [|lia].
  rewrite title_join, split_lower, firstn_map, map_map.
  f_equal. apply map_ext. intros w. apply title_lower.
Qed.

Lemma Forall_first (A : Type) (P : A -> Prop) (n : nat) (l : list A) :
  Forall P l -> Forall P (firstn n l).
Proof.
  intros H. revert n. induction H as [|x l Hx Hl IH]; intros [|n]; simpl;
    constructor; auto.
Qed.

Lemma final_kw_words (kw : str) :
  3 < List.length (split kw) ->
  split (final_kw kw) = map title (firstn 3 (split kw)).
Proof.
  intros H. rewrite (final_kw_long _ H). apply split_join_words.
  apply Forall_map. apply Forall_first.
  eapply Forall_impl; [|apply split_words]. apply word_title.
Qed.

(** A kept phrase gains no character of a class that [str.title] cannot
    change and the space is not in. *)
Lemma final_kw_free (p : ascii -> bool) (kw : str) :
  title_blind p -> p Char.space = false ->
  free_of p kw -> free_of p (final_kw kw).
Proof.
  intros Hp Hs Hkw.
  destruct (Nat.le_gt_cases (List.length (split kw)) 3) as [Hle|Hgt].
  - rewrite (final_kw_short _ Hle). apply title_from_free; assumption.
  - rewrite (final_kw_long _ Hgt).
    apply free_of_join; [constructor; [exact Hs | constructor]|].
    apply Forall_map, Forall_first. unfold split.
    pose proof (split_at_keeps _ Char.isspace kw Hkw) as Hall.
    rewrite Forall_forall in *. intros x Hx. apply filter_In in Hx.
    apply title_from_free; [exact Hp | apply Hall, Hx].
Qed.

(** ** Phrases the normalizer leaves as they are *)

Lemma filter_all (A : Type) (f : A -> bool) (l : list A) :
  Forall (fun x => f x = true) l -> filter f l = l.
Proof.
  induction 1 as [|x l Hx Hl IH]; simpl; [reflexivity|].
  rewrite Hx, IH. reflexivity.
Qed.

Lemma Forall_filter_in (A : Type) (P : A -> Prop) (f : A -> bool) (l : list A) :
  Forall P l -> Forall (fun x => P x /\ f x = true) (filter f l).
Proof.
  induction 1 as [|x l Hx Hl IH]; simpl; [constructor|].
  destruct (f x) eqn:E; [constructor; auto | exact IH].
Qed.

Lemma split_at_free_app (sep : ascii -> bool) (x t : str) :
  free_of sep x ->
  split_at sep (x ++ t)
  = match split_at sep t with
    | [] => [x]
    | w :: ws => (x ++ w) :: ws
    end.
Proof.
  induction 1 as [|c x Hc Hx IH]; simpl.
  - destruct (split_at sep t) as [|w ws] eqn:E; [|reflexivity].
    exfalso. exact (split_at_not_nil sep t E).
  - rewrite Hc, IH. destruct (split_at sep t); reflexivity.
Qed.

(** [str.title] works on each whitespace-separated piece by itself. *)
Lemma split_at_title_from (s : str) (b : bool) :
  split_at Char.isspace (title_from b s)
  = match split_at Char.isspace s with
    | [] => []
    | w :: ws => title_from b w :: map title ws
    end.
Proof.
  revert b. induction s as [|c s IH]; intros b; [reflexivity|].
  rewrite title_from_cons. simpl split_at at 2.
  destruct (Char.isspace c) eqn:Hc.
  - destruct (space_block c b Hc) as [-> ->]. simpl. rewrite Hc, IH.
    destruct (split_at Char.isspace s) as [|w ws] eqn:E; [|reflexivity].
    exfalso. exact (split_at_not_nil _ s E).
  - rewrite split_at_free_app
      by (apply title_block_free; [apply isspace_title_blind | exact Hc]).
    rewrite IH.
    destruct (split_at Char.isspace s) as [|w ws] eqn:E; [|reflexivity].
    exfalso. exact (split_at_not_nil _ s E).
Qed.

Lemma split_title (s : str) : split (title s) = map title (split s).
Proof.
  unfold split, title at 1. rewrite split_at_title_from.
  destruct (split_at Char.isspace s) as [|w ws]; [reflexivity|].
  change (title_from false w :: map title ws) with (map title (w :: ws)).
  induction (w :: ws) as [|v vs IH]; [reflexivity|].
  cbn [map filter]. unfold title at 1. rewrite title_from_truthy, IH.
  destruct (truthy v); reflexivity.
Qed.

Lemma words_title (p : str) :
  List.length (split (title p)) = List.length (split p).
Proof. rewrite split_title. apply length_map. Qed.

Lemma long_phrase_title (p : str) : long_phrase (title p) = long_phrase p.
Proof. unfold long_phrase. rewrite count_title. reflexivity. Qed.

Lemma settled_title (catalog : list str) (p : str) :
  free_of Char.is_sharp_s p ->
  clean p -> long_phrase p = false -> List.length (split p) <= 3 ->
  passes_ban_check catalog p = true ->
  settled catalog (title p).
Proof.
  intros Hs Hc Hl Hw Hp. repeat split.
  - apply trimmed_title, Hc.
  - apply trimmed_title, Hc.
  - apply clean_title, Hc.
  - rewrite long_phrase_title. exact Hl.
  - rewrite words_title. exact Hw.
  - rewrite (passes_ban_check_title _ _ Hs). exact Hp.
  - apply title_idempotent.
Qed.

Section FixedPoint.

Variable World : Type.
Variable generate_content : str -> World -> option str * World.

(** Normalizing a list of settled phrases gives it back. *)
Lemma process_keywords_settled (banned_file : option str)
    (qs : list str) (w : World) :
  Forall (settled (catalog_bans banned_file)) qs ->
  returned (process_keywords World generate_content banned_file
              (join (lit ", ") qs) w)
  = join (lit ", ") qs.
Proof.
  intros H.
  assert (K : kw_list (join (lit ", ") qs) = qs).
  { apply kw_list_join. eapply Forall_impl; [|exact H].
    intros q Hq. apply Hq. }
  rewrite process_keywords_short; rewrite K.
  - rewrite filter_all by (eapply Forall_impl; [|exact H]; intros q Hq; apply Hq).
    f_equal. rewrite <- (map_id qs) at 2. apply map_ext_in.
    intros q Hq. rewrite Forall_forall in H.
    destruct (H q Hq) as (_ & _ & Hw & _ & Ht).
    rewrite (final_kw_short _ Hw). exact Ht.
  - eapply Forall_impl; [|exact H]. intros q Hq. apply Hq.
Qed.

End FixedPoint.

(** ** The normalizer: specification theorems *)

(** C1. In [process_keywords] every phrase that comes out of the rewriting
    step either goes to the output whole (as [final_kw] of it) or is dropped
    whole, and it is dropped exactly when one of its lowercase words equals
    a global-ban entry or a catalog entry occurs as a substring of its
    lowercase text; so "epic build" is dropped although "build" is not
    banned. *)
Theorem ban_filter_drops_whole_phrase :
  forall (World : Type) (generate_content : str -> World -> option str * World)
         (banned_file : option str) (raw : str) (w : World),
    let catalog := catalog_bans banned_file in
    let rewritten :=
      corrected_keywords (correct_all World generate_content (kw_list raw) w) in
    returned (process_keywords World generate_content banned_file raw w)
    = join (lit ", ")
        (map final_kw (filter (passes_ban_check catalog) rewritten))
    /\ (forall kw, passes_ban_check catalog kw = false
                   <-> banned_phrase catalog kw)
    /\ (forall kw kept, filter_step catalog kept kw = kept
                        <-> banned_phrase catalog kw)
    /\ normalize_offline None "dark thriller, epic build" = lit "Dark Thriller"
    /\ passes_ban_check [] (lit "build") = true.
Proof.
  intros World generate_content banned_file raw w catalog rewritten.
  split; [apply process_keywords_eq|].
  split; [intro kw; apply passes_ban_check_spec|].
  split; [|split; vm_compute; reflexivity].
  intros kw kept. rewrite <- passes_ban_check_spec. unfold filter_step.
  destruct (passes_ban_check catalog kw).
  - split; [|discriminate]. intros E.
    apply (f_equal (@List.length str)) in E. rewrite length_app in E.
    simpl in E. lia.
  - split; reflexivity.
Qed.



(** Against C7 as stated: phrases of at most three words can still reach
    the rewriter, and then the output is what the rewriter says.
    "dark   moody" has two words and three spaces. *)
Lemma rewriter_answer_replaces_a_two_word_phrase :
  let raw := lit "dark   moody" in
  let answering :=
    table_service [(get_harvest_loop_prompt raw, lit "brooding")] in
  Forall (fun p => List.length (split p) <= 3 /\ ~ banned_phrase [] p)
         (kw_list raw)
  /\ returned (process_keywords unit answering None raw tt) = lit "Brooding"
  /\ join (lit ", ") (map title (kw_list raw)) = lit "Dark   Moody"
  /\ returned (process_keywords unit answering None raw tt)
     <> join (lit ", ") (map title (kw_list raw)).
Proof.
  cbv zeta. split; [|split; [|split]].
  - constructor; [split|constructor].
    + vm_compute. lia.
    + intro Hb. apply passes_ban_check_spec in Hb. vm_compute in Hb.
      discriminate Hb.
  - vm_compute. reflexivity.
  - vm_compute. reflexivity.
  - vm_compute. discriminate.
Qed.

(** C7, amended. When every phrase of the raw input has at most two spaces
    and at most three words and is not banned, the rewriter is not called
    and the output is the phrases title-cased and joined with ", ", in the
    input order and one for one (splitting the output again gives exactly
    the title-cased phrases, equal ones included); the empty input gives
    the empty output. *)
Theorem short_clean_phrases_are_title_cased_in_order :
  forall (World : Type) (generate_content : str -> World -> option str * World)
         (banned_file : option str) (raw : str) (w : World),
    Forall (fun p => count Char.space p <= 2
                     /\ List.length (split p) <= 3
                     /\ ~ banned_phrase (catalog_bans banned_file) p)
           (kw_list raw) ->
    let out := process_keywords World generate_content banned_file raw w in
    returned out = join (lit ", ") (map title (kw_list raw))
    /\ kw_list (returned out) = map title (kw_list raw)
    /\ prompts out = []
    /\ returned (process_keywords World generate_content banned_file [] w) = [].
Proof.
  intros World generate_content banned_file raw w H out.
  assert (Hshort : Forall (fun kw => long_phrase kw = false) (kw_list raw)).
  { eapply Forall_impl; [|exact H]. intros p (Hc & _).
    unfold long_phrase. apply Nat.ltb_ge. exact Hc. }
  assert (E : returned out = join (lit ", ") (map title (kw_list raw))).
  { unfold out. rewrite (process_keywords_short _ _ _ _ _ Hshort).
    rewrite filter_all.
    - f_equal. apply map_ext_in. intros p Hp. rewrite Forall_forall in H.
      apply final_kw_short. apply (H p Hp).
    - eapply Forall_impl; [|exact H]. intros p (_ & _ & Hb).
      destruct (passes_ban_check (catalog_bans banned_file) p) eqn:P;
        [reflexivity|].
      exfalso. apply Hb, passes_ban_check_spec. exact P. }
  split; [exact E|]. split; [|split; [|reflexivity]].
  - rewrite E. apply kw_list_join. apply Forall_map.
    eapply Forall_impl; [|apply kw_list_clean]. apply clean_title.
  - unfold out. rewrite process_keywords_prompts.
    replace (filter long_phrase (kw_list raw)) with (@nil str);
      [reflexivity|].
    clear - Hshort.
    induction Hshort as [|p ps Hp Hps IH]; simpl; [reflexivity|].
    rewrite Hp. exact IH.
Qed.

Ltac not_banned :=
  let Hb := fresh in
  intro Hb; apply passes_ban_check_spec in Hb; vm_compute in Hb;
  discriminate Hb.

(** Bounds on the phrases of a concrete input, by evaluation. *)
Ltac phrase_bounds :=
  match goal with
  | |- Forall _ ?l =>
      let l' := eval vm_compute in l in
      replace l with l' by (vm_compute; reflexivity)
  end;
  repeat (apply Forall_cons; [repeat split|]); try apply Forall_nil;
  match goal with
  | |- _ <= _ => vm_compute; lia
  | |- ~ _ => not_banned
  end.

Lemma short_clean_phrases_witness :
  let raw := lit "dark thriller; intense action,   CHASE SCENE, dark thriller" in
  let out := process_keywords unit failing_service None raw tt in
  Forall (fun p => count Char.space p <= 2
                   /\ List.length (split p) <= 3
                   /\ ~ banned_phrase (catalog_bans None) p)
         (kw_list raw)
  /\ returned out
     = lit "Dark Thriller, Intense Action, Chase Scene, Dark Thriller".
Proof.
  cbv zeta.
  assert (H : Forall (fun p => count Char.space p <= 2
                   /\ List.length (split p) <= 3
                   /\ ~ banned_phrase (catalog_bans None) p)
         (kw_list (lit "dark thriller; intense action,   CHASE SCENE, dark thriller"))).
  { phrase_bounds. }
  split; [exact H|].
  rewrite (proj1 (short_clean_phrases_are_title_cased_in_order
                    unit failing_service None _ tt H)).
  vm_compute. reflexivity.
Defined.

(** Against C8 as stated: the input need not be ASCII.  The one phrase
    [ßa] has no space and one word, so the rewriter is not called; its title
    case is [Ssa], and in that, lower-cased, the catalog entry [ssa] occurs,
    which it did not in [ßa].  The second run drops what the first kept. *)
Lemma title_case_of_sharp_s_exposes_a_catalog_ban :
  let raw := [Char.sharp_s; "a"%char] in
  let banned_file := Some (lit "ssa") in
  let first := process_keywords unit failing_service banned_file raw tt in
  let once := returned first in
  let twice :=
    returned (process_keywords unit failing_service banned_file once tt) in
  Forall (fun p => count Char.space p <= 2 /\ List.length (split p) <= 3)
         (kw_list raw)
  /\ prompts first = []
  /\ once = lit "Ssa"
  /\ twice = []
  /\ twice <> once.
Proof.
  cbv zeta. split; [|repeat split; vm_compute; solve [reflexivity | discriminate]].
  apply Forall_cons; [split; vm_compute; lia | apply Forall_nil].
Qed.

(** C8, amended. Normalization is idempotent on ASCII input that is already
    within bounds: when the raw input is ASCII text and every phrase of it
    has at most two spaces (the rewriter is not called) and at most three
    words, normalizing the output again, with the same ban lists, gives the
    same output. *)
Theorem normalize_idempotent_on_clean_input :
  forall (World : Type) (generate_content : str -> World -> option str * World)
         (banned_file : option str) (raw : str) (w w' : World),
    isascii raw = true ->
    Forall (fun p => count Char.space p <= 2 /\ List.length (split p) <= 3)
           (kw_list raw) ->
    let once :=
      returned (process_keywords World generate_content banned_file raw w) in
    returned (process_keywords World generate_content banned_file once w')
    = once.
Proof.
  intros World generate_content banned_file raw w w' Hascii H once.
  set (catalog := catalog_bans banned_file).
  assert (Hshort : Forall (fun kw => long_phrase kw = false) (kw_list raw)).
  { eapply Forall_impl; [|exact H]. intros p (Hc & _).
    unfold long_phrase. apply Nat.ltb_ge. exact Hc. }
  assert (E : once = join (lit ", ")
                (map title (filter (passes_ban_check catalog) (kw_list raw)))).
  { unfold once. rewrite (process_keywords_short _ _ _ _ _ Hshort).
    f_equal. apply map_ext_in. intros p Hp. apply filter_In in Hp.
    rewrite Forall_forall in H. apply final_kw_short. apply (H p), Hp. }
  rewrite E. apply process_keywords_settled. apply Forall_map.
  assert (Hall : Forall (fun p => free_of Char.is_sharp_s p
                                  /\ clean p /\ long_phrase p = false
                                  /\ List.length (split p) <= 3)
                        (kw_list raw)).
  { pose proof (kw_list_clean raw) as Hc.
    pose proof (kw_list_keeps Char.is_sharp_s raw (isascii_free raw Hascii))
      as Hs.
    rewrite Forall_forall in *. intros p Hp.
    repeat split; try apply (Hc p Hp); try apply (H p Hp).
    - apply (Hs p Hp).
    - apply (Hshort p Hp). }
  eapply Forall_impl;
    [|apply (Forall_filter_in _ _ (passes_ban_check catalog) _ Hall)].
  intros p ((Hs & Hc & Hl & Hw) & Hp). apply settled_title; assumption.
Qed.

Lemma normalize_idempotent_witness :
  let raw := lit "dark thriller; epic build,   CHASE SCENE, they're here" in
  let once := returned (process_keywords unit failing_service None raw tt) in
  isascii raw = true
  /\ Forall (fun p => count Char.space p <= 2 /\ List.length (split p) <= 3)
         (kw_list raw)
  /\ once = lit "Dark Thriller, Chase Scene, They'Re Here"
  /\ returned (process_keywords unit failing_service None once tt) = once.
Proof.
  cbv zeta.
  assert (H : Forall (fun p => count Char.space p <= 2
                               /\ List.length (split p) <= 3)
         (kw_list (lit "dark thriller; epic build,   CHASE SCENE, they're here"))).
  { phrase_bounds. }
  assert (A : isascii (lit "dark thriller; epic build,   CHASE SCENE, they're here")
               = true) by (vm_compute; reflexivity).
  split; [exact A|].
  split; [exact H|]. split; [vm_compute; reflexivity|].
  exact (normalize_idempotent_on_clean_input
           unit failing_service None _ tt tt A H).
Defined.

(** Without the bound on the words the second run can differ: four words
    separated by a tab and two spaces are cut to three and re-joined with
    single spaces, and only then does the catalog entry "a b" occur. *)
Lemma truncation_can_expose_a_catalog_ban :
  let raw := [ "a"; "009"; "b"; " "; "c"; " "; "d" ]%char in
  let banned_file := Some (lit "a b") in
  let once := returned (process_keywords unit failing_service banned_file raw tt) in
  Forall (fun p => count Char.space p <= 2) (kw_list raw)
  /\ once = lit "A B C"
  /\ returned (process_keywords unit failing_service banned_file once tt) = [].
Proof.
  cbv zeta. split; [|split; vm_compute; reflexivity].
  apply Forall_cons; [vm_compute; lia | apply Forall_nil].
Qed.

(** C10. The normalizer's output need not pass the validator's space check:
    "dark  moody piano" has three words and three spaces, is free of banned
    words, and is kept with its spacing when the rewriter fails or answers
    with the same phrase; the validator then reports "too many spaces" for
    that keyword. *)
Theorem normalized_keyword_can_fail_the_space_check :
  let raw := lit "dark  moody piano" in
  let echoing := table_service [(get_harvest_loop_prompt raw, raw)] in
  let kept := lit "Dark  Moody Piano" in
  let data :=
    {| tracks := Some [ {| Title := Some (lit "Dawn");
                           Keywords := Some kept;
                           Track_Description := Some (lit "Slow piano.") |} ];
       album_description := Some []; album_name := Some [];
       cover_art := Some []; mailchimp_intro := Some [] |} in
  kw_list raw = [raw]
  /\ List.length (split raw) = 3
  /\ count Char.space raw = 3
  /\ passes_ban_check [] raw = true
  /\ returned (process_keywords unit failing_service None raw tt) = kept
  /\ returned (process_keywords unit echoing None raw tt) = kept
  /\ validate_data None data
     = (false, [Msg.too_many_spaces (lit "Dawn") kept]).
Proof.
  cbv zeta. repeat split; vm_compute; reflexivity.
Qed.

(** ** The validator: the loops as concatenations *)

Lemma check_keyword_app (banned : list str) (title : str)
    (errors : list str) (piece : str) :
  check_keyword banned title errors piece
  = errors ++ check_keyword banned title [] piece.
Proof.
  unfold check_keyword.
  destruct (2 <? count Char.space (strip piece));
    destruct (any_in banned (lower (strip piece))); simpl;
    rewrite <- ?app_assoc, ?app_nil_r; reflexivity.
Qed.

Lemma keyword_loop (banned : list str) (title : str)
    (pieces : list str) (errors : list str) :
  fold_left (check_keyword banned title) pieces errors
  = errors ++ flat_map (check_keyword banned title []) pieces.
Proof.
  revert errors. induction pieces as [|k ks IH]; intros errors; simpl.
  - rewrite app_nil_r. reflexivity.
  - rewrite IH, check_keyword_app, <- app_assoc. reflexivity.
Qed.

Lemma check_track_app (banned : list str) (errors : list str)
    (entry : nat * Track) :
  check_track banned errors entry = errors ++ check_track banned [] entry.
Proof.
  destruct entry as [i track]. unfold check_track.
  set (title := get (Title track) _).
  destruct (truthy (get (Keywords track) [])).
  - rewrite (keyword_loop _ _ _ errors), (keyword_loop _ _ _ []).
    destruct (truthy (strip (get (Track_Description track) [])));
      [destruct (member _ articles)|]; simpl;
      rewrite <- ?app_assoc; reflexivity.
  - destruct (truthy (strip (get (Track_Description track) [])));
      [destruct (member _ articles)|]; simpl;
      rewrite ?app_nil_r; reflexivity.
Qed.

Lemma track_loop (banned : list str) (entries : list (nat * Track))
    (errors : list str) :
  fold_left (check_track banned) entries errors
  = errors ++ flat_map (check_track banned []) entries.
Proof.
  revert errors. induction entries as [|e es IH]; intros errors; simpl.
  - rewrite app_nil_r. reflexivity.
  - rewrite IH, check_track_app, <- app_assoc. reflexivity.
Qed.

Lemma any_in_banned_text (banned : list str) (text : str) :
  any_in banned (lower text) = true <-> banned_text banned text.
Proof. apply any_in_spec. Qed.

Lemma validate_data_errors (banned_file : option str) (data : AlbumContent) :
  snd (validate_data banned_file data)
  = flat_map (check_track (validator_bans banned_file) [])
             (enumerate (get (tracks data) []))
    ++ album_errors (validator_bans banned_file) data.
Proof.
  unfold validate_data, album_errors. cbn [snd].
  rewrite track_loop. cbn [app].
  destruct (any_in _ (lower (get (album_description data) [])));
    destruct (any_in _ (lower (get (album_name data) [])));
    destruct (is_empty (get (tracks data) []));
    rewrite <- ?app_assoc, ?app_nil_r; reflexivity.
Qed.

Lemma validate_data_passed (banned_file : option str) (data : AlbumContent) :
  fst (validate_data banned_file data) = true
  <-> snd (validate_data banned_file data) = [].
Proof.
  unfold validate_data. cbn [fst snd].
  match goal with |- (List.length ?e =? 0) = true <-> _ => destruct e end;
    simpl; split; solve [reflexivity | discriminate].
Qed.

Lemma check_keyword_messages (banned : list str) (title piece : str) :
  Forall track_message (check_keyword banned title [] piece).
Proof.
  unfold check_keyword, Msg.too_many_spaces, Msg.banned_keyword.
  destruct (2 <? count Char.space (strip piece));
    destruct (any_in banned (lower (strip piece)));
    repeat constructor; eexists; reflexivity.
Qed.

Lemma check_track_messages (banned : list str) (entry : nat * Track) :
  Forall track_message (check_track banned [] entry).
Proof.
  rewrite Forall_forall. intros m Hm.
  destruct entry as [i track]. unfold check_track in Hm.
  set (title := get (Title track) _) in *.
  assert (Hk : forall pieces, Forall track_message
             (fold_left (check_keyword banned title) pieces [])).
  { intros pieces. rewrite keyword_loop. cbn [app].
    rewrite Forall_forall. intros x Hx. apply in_flat_map in Hx.
    destruct Hx as (k & _ & Hx).
    pose proof (check_keyword_messages banned title k) as F.
    rewrite Forall_forall in F. exact (F x Hx). }
  assert (Ha : forall w, track_message (Msg.antigravity title w))
    by (intros w; eexists; reflexivity).
  destruct (truthy (get (Keywords track) []));
    (destruct (truthy (strip (get (Track_Description track) [])));
     [destruct (member _ articles)|]);
    try apply in_app_or in Hm; try destruct Hm as [Hm|Hm];
    try (simpl in Hm; destruct Hm as [<-|[]]; apply Ha);
    try contradiction;
    try (specialize (Hk (split_at Char.is_comma (get (Keywords track) [])));
         rewrite Forall_forall in Hk; apply (Hk m Hm)).
Qed.

Lemma track_messages (banned : list str) (entries : list (nat * Track)) :
  Forall track_message (flat_map (check_track banned []) entries).
Proof.
  rewrite Forall_forall. intros m Hm. apply in_flat_map in Hm.
  destruct Hm as (e & _ & Hm).
  pose proof (check_track_messages banned e) as F.
  rewrite Forall_forall in F. exact (F m Hm).
Qed.

Lemma album_message_not_track (m : str) :
  In m [Msg.album_description; Msg.album_name; Msg.no_tracks] ->
  ~ track_message m.
Proof.
  intros H (rest & E). simpl in H.
  destruct H as [<-|[<-|[<-|[]]]]; vm_compute in E; discriminate E.
Qed.

Lemma enumerate_from_nth (A : Type) (l : list A) (base i : nat) (x : A) :
  nth_error l i = Some x -> In (base + i, x) (enumerate_from base l).
Proof.
  revert base i. induction l as [|y l IH]; intros base i Hn.
  - destruct i; discriminate Hn.
  - destruct i as [|i]; simpl in *.
    + inversion Hn. subst. left. rewrite Nat.add_0_r. reflexivity.
    + right. rewrite <- Nat.add_succ_comm. apply IH. exact Hn.
Qed.

(** The reports of one track are part of the report on the album. *)
Lemma track_report_included (banned_file : option str) (data : AlbumContent)
    (i : nat) (track : Track) :
  nth_error (get (tracks data) []) i = Some track ->
  incl (check_track (validator_bans banned_file) [] (i, track))
       (snd (validate_data banned_file data)).
Proof.
  intros Hn m Hm. rewrite validate_data_errors. apply in_or_app. left.
  apply in_flat_map. exists (i, track). split; [|exact Hm].
  apply (enumerate_from_nth _ _ 0 i track Hn).
Qed.

(** ** The validator: telling the messages apart *)

Lemma ends_differently (m s1 s2 : str) :
  ends_with m s1 -> ends_with m s2 ->
  List.length s1 = List.length s2 -> s1 = s2.
Proof.
  intros (b1 & E1) (b2 & E2) L. rewrite E1 in E2.
  apply (f_equal (@rev ascii)) in E2. rewrite !rev_app_distr in E2.
  assert (H : forall (x y u v : str),
             List.length x = List.length y -> x ++ u = y ++ v -> x = y).
  { induction x as [|a x IH]; intros [|b y] u v Hl He; simpl in *;
      try discriminate; [reflexivity|].
    inversion He. subst. f_equal. apply (IH y u v); [lia | assumption]. }
  apply (H (rev s1) (rev s2)) in E2; [|rewrite !length_rev; exact L].
  rewrite <- (rev_involutive s1), E2. apply rev_involutive.
Qed.

Lemma too_many_spaces_end (title kw : str) :
  ends_with (Msg.too_many_spaces title kw) (lit "2).").
Proof.
  exists (lit "ERROR: Track '" ++ title ++ lit "' keyword '" ++ kw ++
          lit "' contains too many spaces (>").
  unfold Msg.too_many_spaces. rewrite <- !app_assoc. reflexivity.
Qed.

Lemma banned_keyword_end (title kw : str) :
  ends_with (Msg.banned_keyword title kw) (lit "rd.").
Proof.
  exists (lit "ERROR: Track '" ++ title ++ lit "' keyword '" ++ kw ++
          lit "' contains a banned wo").
  unfold Msg.banned_keyword. rewrite <- !app_assoc. reflexivity.
Qed.

Lemma antigravity_end (title w : str) :
  ends_with (Msg.antigravity title w) (lit "').").
Proof.
  exists (lit "ERROR: Track '" ++ title ++
          lit "' description violates the Antigravity Protocol (Starts with '"
          ++ w).
  unfold Msg.antigravity. rewrite <- !app_assoc. reflexivity.
Qed.

Lemma keyword_message_not_antigravity (banned : list str) (title : str)
    (pieces : list str) (m : str) :
  In m (flat_map (check_keyword banned title []) pieces) ->
  ~ antigravity_message m.
Proof.
  intros Hm (t & w & ->). apply in_flat_map in Hm. destruct Hm as (k & _ & Hm).
  pose proof (antigravity_end t w) as Ha.
  unfold check_keyword in Hm.
  destruct (2 <? count Char.space (strip k));
    destruct (any_in banned (lower (strip k))); simpl in Hm;
    repeat (destruct Hm as [Hm|Hm]); try contradiction;
    rewrite <- Hm in Ha.
  all: first
    [ pose proof (ends_differently _ _ _ Ha (too_many_spaces_end _ _) eq_refl)
        as E; discriminate E
    | pose proof (ends_differently _ _ _ Ha (banned_keyword_end _ _) eq_refl)
        as E; discriminate E ].
Qed.

Lemma keyword_messages_differ (title kw : str) :
  Msg.too_many_spaces title kw <> Msg.banned_keyword title kw.
Proof.
  intros E.
  pose proof (too_many_spaces_end title kw) as H1. rewrite E in H1.
  pose proof (ends_differently _ _ _ H1 (banned_keyword_end _ _) eq_refl) as D.
  discriminate D.
Qed.

Lemma strip_nonword_lower (s : str) :
  strip_nonword (lower s) = lower (strip_nonword s).
Proof.
  unfold strip_nonword, lower.
  assert (H : forall c, negb (Char.isword (Char.lower c)) = negb (Char.isword c))
    by (intro c; rewrite isword_lower_char; reflexivity).
  rewrite (drop_while_map _ _ _ H), <- map_rev, (drop_while_map _ _ _ H),
    <- map_rev. reflexivity.
Qed.

(** The first piece of a split is the text before the first separator. *)
Lemma first_piece (sep : ascii -> bool) (s : str) :
  let token := hd [] (split_at sep s) in
  free_of sep token
  /\ (s = token \/ exists d rest, sep d = true /\ s = token ++ d :: rest).
Proof.
  induction s as [|c s IH]; simpl.
  - split; [constructor | left; reflexivity].
  - destruct (sep c) eqn:E; simpl.
    + split; [constructor|]. right. exists c, s. split; [exact E | reflexivity].
    + pose proof (split_at_not_nil sep s) as Hne.
      destruct (split_at sep s) as [|w ws]; [contradiction|]. simpl in *.
      destruct IH as [Hf Hs]. split; [constructor; assumption|].
      destruct Hs as [->|(d & rest & Hd & ->)].
      * left. reflexivity.
      * right. exists d, rest. split; [exact Hd | reflexivity].
Qed.

Lemma album_errors_description (banned : list str) (data : AlbumContent) :
  In Msg.album_description (album_errors banned data)
  <-> any_in banned (lower (get (album_description data) [])) = true.
Proof.
  unfold album_errors.
  destruct (any_in banned (lower (get (album_description data) [])));
    destruct (any_in banned (lower (get (album_name data) [])));
    destruct (is_empty (get (tracks data) [])); cbn [app In];
    (split; [intros H | intros H; try discriminate H; tauto]);
    try reflexivity; exfalso;
    repeat (destruct H as [H|H]); try contradiction;
    vm_compute in H; discriminate H.
Qed.

Lemma album_errors_name (banned : list str) (data : AlbumContent) :
  In Msg.album_name (album_errors banned data)
  <-> any_in banned (lower (get (album_name data) [])) = true.
Proof.
  unfold album_errors.
  destruct (any_in banned (lower (get (album_description data) [])));
    destruct (any_in banned (lower (get (album_name data) [])));
    destruct (is_empty (get (tracks data) [])); cbn [app In];
    (split; [intros H | intros H; try discriminate H; tauto]);
    try reflexivity; exfalso;
    repeat (destruct H as [H|H]); try contradiction;
    vm_compute in H; discriminate H.
Qed.

Lemma album_message_in_report (banned_file : option str) (data : AlbumContent)
    (m : str) :
  In m [Msg.album_description; Msg.album_name; Msg.no_tracks] ->
  In m (snd (validate_data banned_file data))
  <-> In m (album_errors (validator_bans banned_file) data).
Proof.
  intros Hm. rewrite validate_data_errors, in_app_iff. split; [|tauto].
  intros [H|H]; [|exact H]. exfalso.
  pose proof (track_messages (validator_bans banned_file)
                (enumerate (get (tracks data) []))) as F.
  rewrite Forall_forall in F.
  exact (album_message_not_track m Hm (F _ H)).
Qed.

(** ** The validator: specification theorems *)

(** C2. Every ban check of [validate_data] is a substring test of the
    lowercase text against every entry of the one ban set (the global words
    and the catalog entries alike): for a trimmed keyword of a track, for
    the album description and for the album name the "banned word" message
    is reported exactly when some entry occurs inside the lowercase text.
    So the entry "huge" is reported on "huger", which the normalizer's
    whole-word test lets through. *)
Theorem validator_ban_checks_are_substring_tests :
  forall (banned_file : option str),
    let banned := validator_bans banned_file in
    (forall ban, In ban banned
                 <-> In ban global_bans \/ In ban (catalog_bans banned_file))
    /\ (forall title piece,
          In (Msg.banned_keyword title (strip piece))
             (check_keyword banned title [] piece)
          <-> banned_text banned (strip piece))
    /\ (forall data i track piece,
          nth_error (get (tracks data) []) i = Some track ->
          In piece (split_at Char.is_comma (get (Keywords track) [])) ->
          banned_text banned (strip piece) ->
          In (Msg.banned_keyword
                (get (Title track) (lit "Track " ++ str_of_nat (i + 1)))
                (strip piece))
             (snd (validate_data banned_file data)))
    /\ (forall data,
          In Msg.album_description (snd (validate_data banned_file data))
          <-> banned_text banned (get (album_description data) []))
    /\ (forall data,
          In Msg.album_name (snd (validate_data banned_file data))
          <-> banned_text banned (get (album_name data) []))
    /\ (banned_text (validator_bans None) (lit "Huger")
        /\ passes_ban_check [] (lit "Huger") = true).
Proof.
  intros banned_file banned.
  split; [intro ban; unfold banned, validator_bans; apply in_app_iff|].
  assert (Hkw : forall title piece,
            In (Msg.banned_keyword title (strip piece))
               (check_keyword banned title [] piece)
            <-> banned_text banned (strip piece)).
  { intros title piece. rewrite <- any_in_banned_text. unfold check_keyword.
    destruct (2 <? count Char.space (strip piece));
      destruct (any_in banned (lower (strip piece))); simpl; split;
      try reflexivity; try discriminate; try tauto.
    intros [E|[]]. exfalso. exact (keyword_messages_differ _ _ E). }
  split; [exact Hkw|]. split; [|split; [|split]].
  - intros data i track piece Hn Hp Hb.
    apply (track_report_included banned_file data i track Hn).
    unfold check_track.
    destruct (get (Keywords track) []) as [|c kws] eqn:K.
    { simpl in Hp. destruct Hp as [<-|[]]. destruct Hb as (ban & Hin & Hs).
      exfalso. unfold banned, validator_bans in Hin. apply in_app_or in Hin.
      destruct Hin as [Hg|Hc].
      - destruct Hs as (b & a & Hs). simpl in Hg.
        destruct Hg as [<-|[<-|[<-|[<-|[<-|[]]]]]];
          destruct b; simpl in Hs; discriminate Hs.
      - unfold catalog_bans in Hc. destruct banned_file as [text|]; [|exact Hc].
        apply in_map_iff in Hc. destruct Hc as (line & <- & Hl).
        apply filter_In in Hl. destruct Hl as [_ Hl].
        destruct Hs as (b & a & Hs).
        destruct (strip line); [discriminate Hl|].
        destruct b; simpl in Hs; discriminate Hs. }
    cbn [truthy is_empty negb]. rewrite keyword_loop. cbn [app].
    assert (Hin : In (Msg.banned_keyword
                        (get (Title track) (lit "Track " ++ str_of_nat (i + 1)))
                        (strip piece))
                     (flat_map
                        (check_keyword (validator_bans banned_file)
                           (get (Title track) (lit "Track " ++ str_of_nat (i + 1)))
                           [])
                        (split_at Char.is_comma (c :: kws)))).
    { apply in_flat_map. exists piece. split; [exact Hp|]. apply Hkw. exact Hb. }
    destruct (truthy (strip (get (Track_Description track) [])));
      [destruct (member _ articles)|]; try exact Hin.
    apply in_or_app. left. exact Hin.
  - intros data. rewrite <- any_in_banned_text.
    rewrite album_message_in_report by (left; reflexivity).
    apply album_errors_description.
  - intros data. rewrite <- any_in_banned_text.
    rewrite album_message_in_report by (right; left; reflexivity).
    apply album_errors_name.
  - split; [|vm_compute; reflexivity].
    apply any_in_banned_text. vm_compute. reflexivity.
Qed.

Lemma validator_ban_checks_witness :
  In (Msg.banned_keyword (lit "Dawn") (lit "Huger Sound"))
     (snd (validate_data None (Sample.album [Sample.dawn]))).
Proof.
  apply (proj1 (proj2 (proj2 (validator_ban_checks_are_substring_tests None)))
           (Sample.album [Sample.dawn]) 0 Sample.dawn (lit " Huger Sound")).
  - reflexivity.
  - right. left. reflexivity.
  - apply any_in_banned_text. vm_compute. reflexivity.
Defined.

(** C4. With an empty (or absent) track sequence [validate_data] reports
    the "no track data" error and does not pass; and on every input it
    passes exactly when it reports no error. *)
Theorem empty_tracks_fail_and_passed_means_no_errors :
  forall (banned_file : option str) (data : AlbumContent),
    (fst (validate_data banned_file data) = true
     <-> snd (validate_data banned_file data) = [])
    /\ (get (tracks data) [] = [] ->
        In Msg.no_tracks (snd (validate_data banned_file data))
        /\ fst (validate_data banned_file data) = false).
Proof.
  intros banned_file data. split; [apply validate_data_passed|].
  intros He.
  assert (Hin : In Msg.no_tracks (snd (validate_data banned_file data))).
  { rewrite validate_data_errors. unfold album_errors. rewrite He.
    apply in_or_app. right. apply in_or_app. right. apply in_or_app. right.
    left. reflexivity. }
  split; [exact Hin|].
  destruct (fst (validate_data banned_file data)) eqn:F; [|reflexivity].
  apply validate_data_passed in F. rewrite F in Hin. contradiction.
Qed.

Lemma empty_tracks_witness :
  get (tracks (Sample.album [])) [] = []
  /\ In Msg.no_tracks (snd (validate_data None (Sample.album [])))
  /\ fst (validate_data None (Sample.album [])) = false.
Proof.
  split; [reflexivity|].
  exact (proj2 (empty_tracks_fail_and_passed_means_no_errors
                  None (Sample.album [])) eq_refl).
Defined.

(** The report on one track: the keyword messages, then at most one
    Antigravity message. *)
Lemma check_track_report (banned : list str) (i : nat) (track : Track) :
  let title := get (Title track) (lit "Track " ++ str_of_nat (i + 1)) in
  let desc := strip (get (Track_Description track) []) in
  check_track banned [] (i, track)
  = (if truthy (get (Keywords track) [])
     then flat_map (check_keyword banned title [])
            (split_at Char.is_comma (get (Keywords track) []))
     else [])
    ++ (if truthy desc && member (first_word_of desc) articles
        then [Msg.antigravity title (first_word_of desc)]
        else []).
Proof.
  cbv zeta. unfold check_track.
  destruct (truthy (get (Keywords track) []));
    rewrite ?keyword_loop; cbn [app];
    destruct (truthy (strip (get (Track_Description track) [])));
    [destruct (member _ articles)| |destruct (member _ articles)|];
    cbn [andb]; rewrite ?app_nil_r; reflexivity.
Qed.

Lemma first_word_of_eq (desc : str) :
  first_word_of desc
  = lower (strip_nonword (hd [] (split_at Char.is_space_char desc))).
Proof. unfold first_word_of. apply strip_nonword_lower. Qed.

(** C5. The validator is to report a description whose first
    whitespace-delimited token, stripped of non-word characters and
    lowercased, is "a", "an" or "the".  On "The<TAB>end of it." that token
    is "The", an article, yet [validate_data] raises nothing and passes: it
    cuts the description at the first space character only, and so reads
    "the<TAB>end" as the first word. *)
Theorem article_before_a_tab_is_not_reported :
  let description := lit "The" ++ ["009"%char] ++ lit "end of it." in
  let track :=
    {| Title := Some (lit "Dawn"); Keywords := Some (lit "Soft Piano");
       Track_Description := Some description |} in
  description <> []
  /\ hd [] (split description) = lit "The"
  /\ In (lower (strip_nonword (hd [] (split description)))) articles
  /\ first_word_of (strip description) = lit "the" ++ ["009"%char] ++ lit "end"
  /\ validate_data None (Sample.album [track]) = (true, []).
Proof.
  cbv zeta. split; [discriminate|].
  split; [vm_compute; reflexivity|].
  split; [vm_compute; tauto|].
  split; vm_compute; reflexivity.
Qed.

(** What the Antigravity check does: a track is reported exactly when the
    text of its stripped description before the first space character
    (a tab or a line break does not end it), with leading and trailing
    non-word characters removed and lowercased, is "a", "an" or "the"; the
    message then names that word, and the report does not pass. *)
Theorem antigravity_checks_first_space_delimited_token :
  forall (banned_file : option str) (data : AlbumContent)
         (i : nat) (track : Track),
    nth_error (get (tracks data) []) i = Some track ->
    let title := get (Title track) (lit "Track " ++ str_of_nat (i + 1)) in
    let desc := strip (get (Track_Description track) []) in
    let token := hd [] (split_at Char.is_space_char desc) in
    let first_word := lower (strip_nonword token) in
    let report := check_track (validator_bans banned_file) [] (i, track) in
    (free_of Char.is_space_char token
     /\ (desc = token \/ exists rest, desc = token ++ Char.space :: rest))
    /\ ((exists m, In m report /\ antigravity_message m)
        <-> In first_word articles)
    /\ (In first_word articles ->
        In (Msg.antigravity title first_word) report
        /\ In (Msg.antigravity title first_word)
              (snd (validate_data banned_file data))
        /\ fst (validate_data banned_file data) = false).
Proof.
  intros banned_file data i track Hn title desc token first_word report.
  assert (Hfw : first_word_of desc = first_word) by apply first_word_of_eq.
  assert (Hrep : In first_word articles ->
                 In (Msg.antigravity title first_word) report).
  { intros Hin. unfold report. rewrite check_track_report. fold title desc.
    rewrite Hfw. apply in_or_app. right.
    assert (Hd : truthy desc = true).
    { destruct (truthy desc) eqn:T; [reflexivity|]. exfalso.
      assert (D : desc = []) by (destruct desc; [reflexivity | discriminate T]).
      unfold first_word, token in Hin. rewrite D in Hin.
      apply member_In in Hin. vm_compute in Hin. discriminate Hin. }
    rewrite Hd. apply member_In in Hin. rewrite Hin. left. reflexivity. }
  split.
  { destruct (first_piece Char.is_space_char desc) as [Hf Hs].
    split; [exact Hf|].
    destruct Hs as [Hs|(d & rest & Hd & Hs)]; [left; exact Hs|].
    right. exists rest. apply Ascii.eqb_eq in Hd. subst d. exact Hs. }
  split.
  - split.
    + intros (m & Hm & Ha). unfold report in Hm.
      rewrite check_track_report in Hm. fold title desc in Hm.
      apply in_app_or in Hm. destruct Hm as [Hm|Hm].
      * exfalso. destruct (truthy (get (Keywords track) [])); [|contradiction].
        exact (keyword_message_not_antigravity _ _ _ _ Hm Ha).
      * rewrite Hfw in Hm.
        destruct (member first_word articles) eqn:M.
        -- apply member_In. exact M.
        -- rewrite andb_false_r in Hm. contradiction.
    + intros Hin. exists (Msg.antigravity title first_word).
      split; [apply Hrep; exact Hin | exists title, first_word; reflexivity].
  - intros Hin. pose proof (Hrep Hin) as Hr.
    assert (Hv : In (Msg.antigravity title first_word)
                    (snd (validate_data banned_file data)))
      by exact (track_report_included banned_file data i track Hn _ Hr).
    split; [exact Hr|]. split; [exact Hv|].
    destruct (fst (validate_data banned_file data)) eqn:F; [|reflexivity].
    apply validate_data_passed in F. rewrite F in Hv. contradiction.
Qed.

Lemma article_in_quotes_is_reported :
  let track :=
    {| Title := Some (lit "Dawn"); Keywords := Some (lit "Soft Piano");
       Track_Description := Some (lit "  'The' sun rises.") |} in
  In (Msg.antigravity (lit "Dawn") (lit "the"))
     (snd (validate_data None (Sample.album [Sample.dusk; track])))
  /\ fst (validate_data None (Sample.album [Sample.dusk; track])) = false.
Proof.
  cbv zeta.
  refine (proj2 (proj2 (proj2
    (antigravity_checks_first_space_delimited_token None
       (Sample.album
          [Sample.dusk;
           {| Title := Some (lit "Dawn"); Keywords := Some (lit "Soft Piano");
              Track_Description := Some (lit "  'The' sun rises.") |}])
       1 _ eq_refl)) _)).
  vm_compute. tauto.
Defined.

(** ** The compiler: specification theorems *)

(** The table writer on a few records: a field is quoted when it holds a
    comma, a quote character or a character of the line terminator, and its
    quote characters are doubled. *)
Example csv_writer_cases :
  let record := Csv.record Csv.posix false in
  let q := Csv.quotechar in
  let cr := "013"%char in
  record [lit "a"; lit "b"] = lit "a,b" ++ Csv.posix
  /\ record [lit "a,b"; lit "c"]
     = [q] ++ lit "a,b" ++ [q] ++ lit ",c" ++ Csv.posix
  /\ record [lit "a" ++ [q] ++ lit "b"; lit "c"]
     = [q] ++ lit "a" ++ [q; q] ++ lit "b" ++ [q] ++ lit ",c" ++ Csv.posix
  /\ record [lit "a" ++ Csv.posix ++ lit "b"; lit "c"]
     = [q] ++ lit "a" ++ Csv.posix ++ lit "b" ++ [q] ++ lit ",c" ++ Csv.posix
  /\ record [lit " a "; lit "b;c"] = lit " a ,b;c" ++ Csv.posix
  /\ record [[]; []] = lit "," ++ Csv.posix
  /\ record [[]] = [q; q] ++ Csv.posix
  /\ record [lit "a" ++ [cr] ++ lit "b"; lit "c"]
     = lit "a" ++ [cr] ++ lit "b,c" ++ Csv.posix
  /\ Csv.record Csv.posix true [lit "a" ++ [cr] ++ lit "b"; lit "c"]
     = [q] ++ lit "a" ++ [cr] ++ lit "b" ++ [q] ++ lit ",c" ++ Csv.posix
  /\ Csv.record (Csv.linesep Csv.Windows) false
       [lit "a" ++ [cr] ++ lit "b"; lit "c"]
     = [q] ++ lit "a" ++ [cr] ++ lit "b" ++ [q] ++ lit ",c"
       ++ Csv.linesep Csv.Windows
  /\ Csv.to_csv Csv.posix false
       {| columns := [lit "Title"; lit "Keywords"];
          rows := [[Some (lit "Dawn"); None]; [None; Some (lit "x, y")]] |}
     = lit "Title,Keywords" ++ Csv.posix
       ++ lit "Dawn," ++ Csv.posix
       ++ lit "," ++ [q] ++ lit "x, y" ++ [q] ++ Csv.posix.
Proof. cbv zeta. repeat split; vm_compute; reflexivity. Qed.

(** Against C3 as stated: a non-empty track sequence is not enough.  When
    no record carries a title the frame built from the records has no
    column of that name, selecting it raises, and no archive is written,
    whatever the table writer. *)
Lemma tracks_without_a_title_give_no_archive :
  let records :=
    [ {| Title := None; Keywords := Some (lit "Soft Piano");
         Track_Description := Some (lit "Slow piano opens the day.") |} ] in
  records <> []
  /\ forall to_csv : Frame -> str,
       compile_final_package to_csv (Sample.album records) = None.
Proof. cbv zeta. split; [discriminate | intro to_csv; reflexivity]. Qed.

(** C3, amended. For a non-empty track sequence in which each of the three
    fields of a track is carried by some record, the archive holds exactly
    the six members with the fixed names, in this order; the text of each of
    the two tables is the header record followed by one record per track, in
    the order of the tracks, the [k]-th made of the fields of the [k]-th
    track (a field the track lacks left empty); and the two tables depend on
    the tracks alone, so the same tracks always give the same table text. *)
Theorem archive_has_six_sections_with_rows_in_track_order :
  forall (platform : Csv.Platform) (quotes_line_breaks : bool)
         (data : AlbumContent) (records : list Track),
    tracks data = Some records ->
    records <> [] ->
    (forall c, has_column records c = true) ->
    let to_csv := Csv.to_csv (Csv.linesep platform) quotes_line_breaks in
    let record := Csv.record (Csv.linesep platform) quotes_line_breaks in
    let text (cell : option str) := get cell [] in
    compile_final_package to_csv data
    = Some [ (lit "01 Track Keywords/Track_Keywords.csv",
              record [lit "Title"; lit "Keywords"]
              ++ List.concat
                   (map (fun t => record [text (Title t); text (Keywords t)])
                        records));
             (lit "02 Track Descriptions/Track_Descriptions.csv",
              record [lit "Title"; lit "Track Description"]
              ++ List.concat
                   (map (fun t =>
                           record [text (Title t); text (Track_Description t)])
                        records));
             (lit "03 Album Description/Album_Description.txt",
              get (album_description data) []);
             (lit "04 Album Name/Album_Name.txt", get (album_name data) []);
             (lit "05 Album Cover Art/MidJourney_Prompts.txt",
              get (cover_art data) []);
             (lit "06 MailChimp Intro/MailChimp_Copy.txt",
              get (mailchimp_intro data) []) ]
    /\ (forall data', tracks data' = Some records ->
          option_map (firstn 2) (compile_final_package to_csv data')
          = option_map (firstn 2) (compile_final_package to_csv data)).
Proof.
  intros platform quotes_line_breaks data records Ht Hne Hcol
         to_csv record text.
  set (keyword_table :=
         {| columns := [lit "Title"; lit "Keywords"];
            rows := map (fun t => [Title t; Keywords t]) records |}).
  set (description_table :=
         {| columns := [lit "Title"; lit "Track Description"];
            rows := map (fun t => [Title t; Track_Description t]) records |}).
  assert (Hc : forall d, tracks d = Some records ->
             compile_final_package to_csv d
             = Some ([ (Archive.track_keywords, to_csv keyword_table);
                       (Archive.track_descriptions, to_csv description_table) ]
                     ++ text_members d)).
  { intros d Hd. unfold compile_final_package. rewrite Hd.
    destruct records as [|t ts]; [contradiction|].
    unfold track_members, select. cbn [forallb].
    rewrite !Hcol. reflexivity. }
  split.
  - rewrite (Hc data Ht). unfold to_csv, Csv.to_csv, keyword_table,
      description_table. cbn [columns rows]. rewrite !map_map. reflexivity.
  - intros data' Ht'. rewrite (Hc data Ht), (Hc data' Ht'). reflexivity.
Qed.

Lemma archive_six_sections_witness :
  let records := [Sample.dawn; Sample.dusk] in
  let quote := [Csv.quotechar] in
  let newline := Csv.posix in
  (forall c, has_column records c = true)
  /\ compile_final_package (Csv.to_csv (Csv.linesep Csv.Posix) false)
       (Sample.album records)
     = Some [ (lit "01 Track Keywords/Track_Keywords.csv",
               lit "Title,Keywords" ++ newline
               ++ lit "Dawn," ++ quote ++ lit "Soft Piano, Huger Sound"
               ++ quote ++ newline
               ++ lit "Dusk,Warm Strings" ++ newline);
              (lit "02 Track Descriptions/Track_Descriptions.csv",
               lit "Title,Track Description" ++ newline
               ++ lit "Dawn,Slow piano opens the day." ++ newline
               ++ lit "Dusk," ++ quote ++ lit "Strings fade, then rest."
               ++ quote ++ newline);
              (lit "03 Album Description/Album_Description.txt",
               lit "Quiet mornings.");
              (lit "04 Album Name/Album_Name.txt", lit "First Light");
              (lit "05 Album Cover Art/MidJourney_Prompts.txt",
               lit "A pale sun over water");
              (lit "06 MailChimp Intro/MailChimp_Copy.txt", []) ].
Proof.
  cbv zeta.
  assert (Hne : [Sample.dawn; Sample.dusk] <> []) by discriminate.
  assert (Hcol : forall c, has_column [Sample.dawn; Sample.dusk] c = true)
    by (intros [| |]; reflexivity).
  split; [exact Hcol|].
  rewrite (proj1 (archive_has_six_sections_with_rows_in_track_order
                    Csv.Posix false (Sample.album [Sample.dawn; Sample.dusk])
                    [Sample.dawn; Sample.dusk] eq_refl Hne Hcol)).
  vm_compute. reflexivity.
Defined.

(** C9. With the track sequence empty or absent the compiler does not
    raise: the archive holds the four text members only, and neither
    table. *)
Theorem no_tracks_gives_four_text_sections :
  forall (to_csv : Frame -> str) (data : AlbumContent),
    tracks data = None \/ tracks data = Some [] ->
    compile_final_package to_csv data
    = Some [ (lit "03 Album Description/Album_Description.txt",
              get (album_description data) []);
             (lit "04 Album Name/Album_Name.txt", get (album_name data) []);
             (lit "05 Album Cover Art/MidJourney_Prompts.txt",
              get (cover_art data) []);
             (lit "06 MailChimp Intro/MailChimp_Copy.txt",
              get (mailchimp_intro data) []) ].
Proof.
  intros to_csv data [H|H]; unfold compile_final_package; rewrite H;
    reflexivity.
Qed.

Lemma no_tracks_witness :
  option_map Archive.namelist
    (compile_final_package plain_csv (Sample.album []))
  = Some [ lit "03 Album Description/Album_Description.txt";
           lit "04 Album Name/Album_Name.txt";
           lit "05 Album Cover Art/MidJourney_Prompts.txt";
           lit "06 MailChimp Intro/MailChimp_Copy.txt" ].
Proof.
  rewrite (no_tracks_gives_four_text_sections plain_csv (Sample.album [])
             (or_intror eq_refl)).
  reflexivity.
Defined.

(** * Further properties of the engine *)

(** ** The normalizer: what its output always is *)

Lemma word_trimmed (w : str) : word w -> trimmed w.
Proof.
  intros [Hne Hfree]. split.
  - destruct w as [|c w]; [discriminate|]. inversion Hfree. assumption.
  - assert (Hr : free_of Char.isspace (rev w)) by (apply Forall_rev; exact Hfree).
    destruct (rev w) as [|c r] eqn:E.
    + apply (f_equal (@rev ascii)) in E. rewrite rev_involutive in E.
      subst w. discriminate.
    + inversion Hr. assumption.
Qed.

Lemma trimmed_app (a sep b : str) :
  trimmed a -> trimmed b -> trimmed (a ++ sep ++ b).
Proof.
  intros [Ha _] [_ Hb]. split.
  - destruct a; [contradiction | exact Ha].
  - rewrite !rev_app_distr.
    destruct (rev b); [contradiction | exact Hb].
Qed.

Lemma trimmed_join_words (ws : list str) :
  Forall word ws -> ws <> [] -> trimmed (join (lit " ") ws).
Proof.
  induction 1 as [|w ws Hw Hws IH]; intros Hne; [contradiction|].
  destruct ws as [|v ws].
  - simpl. apply word_trimmed. exact Hw.
  - change (join (lit " ") (w :: v :: ws))
      with (w ++ lit " " ++ join (lit " ") (v :: ws)).
    apply trimmed_app; [apply word_trimmed; exact Hw | apply IH; discriminate].
Qed.

Lemma trimmed_has_word (p : str) : trimmed p -> 1 <= List.length (split p).
Proof.
  intros [H _]. destruct p as [|c p]; [contradiction|].
  unfold split.
  destruct (split_at_cons_other Char.isspace c p H) as (w & ws & _ & E).
  rewrite E. simpl. lia.
Qed.

Lemma final_kw_trimmed (kw : str) :
  trimmed kw ->
  trimmed (final_kw kw) /\ 1 <= List.length (split (final_kw kw)) <= 3.
Proof.
  intros Ht. pose proof (trimmed_has_word kw Ht) as H1.
  destruct (Nat.le_gt_cases (List.length (split kw)) 3) as [Hle|Hgt].
  - rewrite (final_kw_short _ Hle). split; [apply trimmed_title; exact Ht|].
    rewrite words_title. lia.
  - split.
    + rewrite (final_kw_long _ Hgt). apply trimmed_join_words.
      * apply Forall_map, Forall_first.
        eapply Forall_impl; [|apply split_words]. apply word_title.
      * destruct (split kw) as [|a l]; [simpl in Hgt; lia | discriminate].
    + rewrite (final_kw_words _ Hgt), length_map, length_firstn. lia.
Qed.

Lemma islower_lower_cased (c : ascii) :
  Char.islower (Char.lower c) = true -> Char.iscased c = true.
Proof.
  destruct c as [[|] [|] [|] [|] [|] [|] [|] [|]]; vm_compute;
    solve [ discriminate | reflexivity ].
Qed.

(** Behind a cased character [str.title] only lower-cases, as long as the
    result is made of the letters a..z. *)
Lemma lower_title_letters (s g : str) :
  Forall (fun c => Char.islower c = true) g ->
  lower (title_from true s) = g -> lower s = g.
Proof.
  revert g. induction s as [|c s IH]; intros g Hg E; [exact E|].
  rewrite title_from_cons in E. unfold lower in E. cbn [app map] in E.
  rewrite lower_lower_char in E.
  destruct g as [|d g]; [discriminate E|]. injection E as Ed Eg.
  inversion Hg as [|? ? Hd Hg']; subst.
  rewrite (islower_lower_cased c Hd) in *.
  unfold lower. cbn [map]. f_equal. apply (IH _ Hg'). reflexivity.
Qed.

(** No title-cased word reads as a global ban unless the word itself did:
    the title case of a sharp s begins with two letters s, which no global
    ban does. *)
Lemma lower_title_global (w g : str) :
  In g global_bans -> lower (title w) = g -> lower w = g.
Proof.
  intros Hg E. destruct w as [|c r]; [exact E|].
  assert (Hl : Forall (fun c => Char.islower c = true) g).
  { simpl in Hg. destruct Hg as [<-|[<-|[<-|[<-|[<-|[]]]]]];
      repeat constructor. }
  unfold title in E. rewrite title_from_cons in E.
  destruct (Char.is_sharp_s c) eqn:Hs.
  - exfalso. unfold Char.to_title in E. rewrite Hs in E.
    unfold lower in E. cbn [lit list_ascii_of_string app map] in E.
    simpl in Hg. destruct Hg as [<-|[<-|[<-|[<-|[<-|[]]]]]]; discriminate E.
  - destruct (plain_char c Hs) as (E1 & _). rewrite E1 in E.
    unfold lower in E. cbn [app map] in E. rewrite lower_upper_char in E.
    destruct g as [|d g]; [discriminate E|]. injection E as Ed Eg.
    inversion Hl as [|? ? Hd Hl']; subst.
    rewrite (islower_lower_cased c Hd) in *.
    unfold lower. cbn [map]. f_equal.
    exact (lower_title_letters r _ Hl' eq_refl).
Qed.

(** A global ban among the lowercase words of a kept phrase was among the
    lowercase words of the phrase it was made from. *)
Lemma final_kw_global_words (kw u : str) :
  In u (split (lower (final_kw kw))) -> In u global_bans ->
  In u (split (lower kw)).
Proof.
  intros Hu Hg. rewrite split_lower in *.
  apply in_map_iff in Hu. destruct Hu as (t & Et & Ht).
  assert (Hw : exists w, In w (split kw) /\ t = title w).
  { destruct (Nat.le_gt_cases (List.length (split kw)) 3) as [Hle|Hgt].
    - rewrite (final_kw_short _ Hle), split_title in Ht.
      apply in_map_iff in Ht. destruct Ht as (w & E & Hw).
      exists w. split; [exact Hw | symmetry; exact E].
    - rewrite (final_kw_words _ Hgt) in Ht.
      apply in_map_iff in Ht. destruct Ht as (w & E & Hw).
      exists w. split; [|symmetry; exact E].
      rewrite <- (firstn_skipn 3 (split kw)). apply in_or_app. left. exact Hw. }
  destruct Hw as (w & Hw & ->). apply in_map_iff. exists w.
  split; [|exact Hw]. apply lower_title_global; assumption.
Qed.

Section OutputFacts.

Variable World : Type.
Variable generate_content : str -> World -> option str * World.

Lemma corrected_trimmed (kws : list str) (w : World) :
  Forall trimmed kws ->
  Forall trimmed
    (corrected_keywords (correct_all World generate_content kws w)).
Proof.
  intros H.
  destruct (correct_loop_each World generate_content kws
              {| corrected_keywords := []; service := w; prompts_sent := [] |})
    as (cs & E & F).
  unfold correct_all. rewrite E. cbn [app corrected_keywords].
  clear E. induction F as [|kw c kws cs Hc F IH]; [constructor|].
  inversion H; subst. constructor; [|apply IH; assumption].
  destruct Hc as [->|(_ & _ & text & _ & _ & -> & Hne)]; [assumption|].
  apply strip_trimmed. exact Hne.
Qed.

Lemma corrected_free (p : ascii -> bool) (kws : list str) (w : World) :
  (forall prompt v text v',
      generate_content prompt v = (Some text, v') -> free_of p text) ->
  Forall (free_of p) kws ->
  Forall (free_of p)
    (corrected_keywords (correct_all World generate_content kws w)).
Proof.
  intros Hanswer H.
  destruct (correct_loop_each World generate_content kws
              {| corrected_keywords := []; service := w; prompts_sent := [] |})
    as (cs & E & F).
  unfold correct_all. rewrite E. cbn [app corrected_keywords].
  clear E. induction F as [|kw c kws cs Hc F IH]; [constructor|].
  inversion H; subst. constructor; [|apply IH; assumption].
  destruct Hc as [->|(_ & v & text & v' & G & -> & _)]; [assumption|].
  apply free_of_strip. exact (Hanswer _ _ _ _ G).
Qed.

Lemma final_keywords_eq (banned_file : option str) (raw : str) (w : World) :
  final_keywords generate_content banned_file raw w
  = map final_kw
      (filter (passes_ban_check (catalog_bans banned_file))
         (corrected_keywords
            (correct_all World generate_content (kw_list raw) w))).
Proof. unfold final_keywords. rewrite filter_loop. reflexivity. Qed.

Lemma length_filter_le (A : Type) (f : A -> bool) (l : list A) :
  List.length (filter f l) <= List.length l.
Proof. induction l as [|x l IH]; simpl; [lia|]. destruct (f x); simpl; lia. Qed.

Lemma correct_all_length (kws : list str) (w : World) :
  List.length (corrected_keywords (correct_all World generate_content kws w))
  = List.length kws.
Proof.
  destruct (correct_loop_each World generate_content kws
              {| corrected_keywords := []; service := w; prompts_sent := [] |})
    as (cs & E & F).
  unfold correct_all. rewrite E. cbn [app corrected_keywords].
  symmetry. apply (Forall2_length F).
Qed.

End OutputFacts.

(** X1. The text [process_keywords] returns is [", "] joining a list of
    phrases of which there are never more than the raw input had, and each
    of which is non-empty, has no whitespace at either end and has between
    one and three words, whatever the rewriter answered. *)
Theorem normalizer_output_respects_the_word_limit :
  forall (World : Type) (generate_content : str -> World -> option str * World)
         (banned_file : option str) (raw : str) (w : World),
    let finals := final_keywords generate_content banned_file raw w in
    returned (process_keywords World generate_content banned_file raw w)
    = join (lit ", ") finals
    /\ List.length finals <= List.length (kw_list raw)
    /\ Forall (fun p => trimmed p /\ 1 <= List.length (split p) <= 3) finals.
Proof.
  intros World generate_content banned_file raw w finals.
  unfold finals. rewrite final_keywords_eq.
  split; [apply process_keywords_eq|]. split.
  - rewrite length_map.
    rewrite <- (correct_all_length World generate_content (kw_list raw) w).
    apply length_filter_le.
  - apply Forall_map.
    pose proof (corrected_trimmed World generate_content (kw_list raw) w) as H.
    assert (Ht : Forall trimmed (kw_list raw)).
    { eapply Forall_impl; [|apply kw_list_clean]. intros p Hp. apply Hp. }
    specialize (H Ht). rewrite Forall_forall in *. intros p Hp.
    apply filter_In in Hp. apply final_kw_trimmed. apply H. apply Hp.
Qed.

(** ** The normalizer and the validator's space check *)

Lemma count_free (w : str) : free_of Char.isspace w -> count Char.space w = 0.
Proof.
  induction 1 as [|c w Hc Hw IH]; simpl; [reflexivity|].
  rewrite IH. destruct (Ascii.eqb c Char.space) eqn:E; [|reflexivity].
  apply Ascii.eqb_eq in E. subst c. discriminate Hc.
Qed.

Lemma count_join_words (ws : list str) :
  Forall word ws -> count Char.space (join (lit " ") ws) = pred (List.length ws).
Proof.
  induction 1 as [|w ws [_ Hw] Hws IH]; [reflexivity|].
  destruct ws as [|v ws]; [simpl; apply count_free; exact Hw|].
  change (join (lit " ") (w :: v :: ws))
    with (w ++ Char.space :: join (lit " ") (v :: ws)).
  rewrite count_app, (count_free _ Hw). cbn [count].
  change (Ascii.eqb Char.space Char.space) with true. rewrite IH. reflexivity.
Qed.

(** What the validator finds when it splits the normalizer's text at the
    commas: the first phrase, and each later one behind a space. *)
Lemma split_comma_join (p : str) (ps : list str) :
  Forall (free_of Char.is_comma) (p :: ps) ->
  split_at Char.is_comma (join (lit ", ") (p :: ps))
  = p :: map (cons Char.space) ps.
Proof.
  revert p. induction ps as [|q ps IH]; intros p H.
  - inversion H; subst. simpl join. apply split_at_free. assumption.
  - inversion H as [|x l Hp Hrest]; subst.
    change (join (lit ", ") (p :: q :: ps))
      with (p ++ Char.comma :: Char.space :: join (lit ", ") (q :: ps)).
    rewrite (split_at_app _ _ _ _ Hp) by reflexivity.
    destruct (split_at_cons_other Char.is_comma Char.space
                (join (lit ", ") (q :: ps)) eq_refl) as (w & ws & E1 & E2).
    rewrite E2. rewrite (IH q Hrest) in E1. inversion E1; subst. reflexivity.
Qed.

Lemma final_kw_for_validator (kw : str) :
  clean kw -> count Char.space kw <= 2 ->
  trimmed (final_kw kw)
  /\ free_of Char.is_comma (final_kw kw)
  /\ count Char.space (final_kw kw) <= 2.
Proof.
  intros [Ht Hf] Hc.
  assert (Hcomma : free_of Char.is_comma kw).
  { eapply Forall_impl; [|exact Hf]. intros c H.
    unfold Char.is_comma_or_semicolon in H. apply orb_false_iff in H. apply H. }
  split; [apply final_kw_trimmed; exact Ht|].
  split; [apply final_kw_free;
          [apply comma_title_blind | reflexivity | exact Hcomma]|].
  destruct (Nat.le_gt_cases (List.length (split kw)) 3) as [Hle|Hgt].
  - rewrite (final_kw_short _ Hle), count_title. exact Hc.
  - rewrite (final_kw_long _ Hgt).
    assert (Hw : Forall word (map title (firstn 3 (split kw)))).
    { apply Forall_map, Forall_first.
      eapply Forall_impl; [|apply split_words]. apply word_title. }
    rewrite (count_join_words _ Hw), length_map, length_firstn. lia.
Qed.

(** X3. When no phrase of the raw input has more than two spaces (so the
    rewriter is not called), every keyword the validator cuts out of the
    normalizer's text has at most two spaces, and the validator's
    "too many spaces" message is not raised for any of them. *)
Theorem normalized_short_phrases_pass_the_space_check :
  forall (World : Type) (generate_content : str -> World -> option str * World)
         (banned_file : option str) (raw : str) (w : World),
    Forall (fun p => count Char.space p <= 2) (kw_list raw) ->
    let out :=
      returned (process_keywords World generate_content banned_file raw w) in
    Forall (fun piece =>
              count Char.space (strip piece) <= 2
              /\ forall banned title,
                   ~ In (Msg.too_many_spaces title (strip piece))
                        (check_keyword banned title [] piece))
           (split_at Char.is_comma out).
Proof.
  intros World generate_content banned_file raw w H out.
  assert (Hmsg : forall piece, count Char.space (strip piece) <= 2 ->
            forall banned title,
              ~ In (Msg.too_many_spaces title (strip piece))
                   (check_keyword banned title [] piece)).
  { intros piece Hc banned title. unfold check_keyword.
    destruct (Nat.ltb_spec 2 (count Char.space (strip piece))); [lia|].
    destruct (any_in banned (lower (strip piece))); simpl; [|tauto].
    intros [E|[]]. symmetry in E. exact (keyword_messages_differ _ _ E). }
  assert (Hshort : Forall (fun kw => long_phrase kw = false) (kw_list raw)).
  { eapply Forall_impl; [|exact H]. intros p Hc.
    unfold long_phrase. apply Nat.ltb_ge. exact Hc. }
  unfold out. rewrite (process_keywords_short _ _ _ _ _ Hshort).
  set (kept := filter (passes_ban_check (catalog_bans banned_file)) (kw_list raw)).
  assert (Hk : Forall (fun p => trimmed p /\ free_of Char.is_comma p
                               /\ count Char.space p <= 2)
                      (map final_kw kept)).
  { apply Forall_map. pose proof (kw_list_clean raw) as Hc.
    rewrite Forall_forall in *. intros kw Hkw. apply filter_In in Hkw.
    apply final_kw_for_validator; [apply Hc | apply H]; apply Hkw. }
  destruct (map final_kw kept) as [|p ps].
  - assert (Hs : count Char.space (strip []) <= 2) by (simpl; lia).
    constructor; [|constructor]. split; [exact Hs | apply Hmsg; exact Hs].
  - rewrite split_comma_join
      by (eapply Forall_impl; [|exact Hk]; intros x Hx; apply Hx).
    apply Forall_cons_iff in Hk. destruct Hk as [(Ht & _ & Hc) Hrest].
    constructor.
    + assert (Hs : count Char.space (strip p) <= 2)
        by (rewrite (trimmed_strip _ Ht); exact Hc).
      split; [exact Hs | apply Hmsg; exact Hs].
    + apply Forall_map. eapply Forall_impl; [|exact Hrest].
      intros q (Hq & _ & Hcq).
      assert (Hs : count Char.space (strip (Char.space :: q)) <= 2).
      { rewrite strip_cons_space by reflexivity.
        rewrite (trimmed_strip _ Hq). exact Hcq. }
      split; [exact Hs | apply Hmsg; exact Hs].
Qed.

Lemma normalized_short_phrases_witness :
  Forall (fun p => count Char.space p <= 2)
         (kw_list (lit "dark thriller; slow  burn, CHASE scene"))
  /\ Forall (fun piece => count Char.space (strip piece) <= 2)
       (split_at Char.is_comma
          (returned (process_keywords unit failing_service None
                       (lit "dark thriller; slow  burn, CHASE scene") tt))).
Proof.
  assert (H : Forall (fun p => count Char.space p <= 2)
                (kw_list (lit "dark thriller; slow  burn, CHASE scene")))
    by phrase_bounds.
  split; [exact H|].
  eapply Forall_impl;
    [|exact (normalized_short_phrases_pass_the_space_check
               unit failing_service None _ tt H)].
  intros piece Hp. apply Hp.
Defined.

(** ** The normalizer and the global bans *)

Lemma comma_free_of_clean (p : str) : clean p -> free_of Char.is_comma p.
Proof.
  intros [_ Hf]. eapply Forall_impl; [|exact Hf]. intros c H.
  unfold Char.is_comma_or_semicolon in H. apply orb_false_iff in H. apply H.
Qed.

(** X2. When no answer of the rewriter holds a comma, the keywords that the
    validator cuts out of the text [process_keywords] returns (split at the
    commas and stripped) are the phrases the normalizer kept, and none of
    them has a global-ban word among its lowercase words, whatever the
    rewriter answered and whether or not the phrase was cut to three
    words. *)
Theorem normalizer_output_has_no_global_ban_word :
  forall (World : Type) (generate_content : str -> World -> option str * World)
         (banned_file : option str) (raw : str) (w : World),
    (forall prompt v text v',
        generate_content prompt v = (Some text, v') ->
        free_of Char.is_comma text) ->
    let out :=
      returned (process_keywords World generate_content banned_file raw w) in
    (out <> [] ->
     map strip (split_at Char.is_comma out)
     = final_keywords generate_content banned_file raw w)
    /\ Forall (fun piece =>
                 forall word, In word (split (lower (strip piece))) ->
                              ~ In word global_bans)
              (split_at Char.is_comma out).
Proof.
  intros World generate_content banned_file raw w Hanswer out.
  assert (Eout : out = join (lit ", ")
                         (final_keywords generate_content banned_file raw w)).
  { unfold out. rewrite final_keywords_eq. apply process_keywords_eq. }
  assert (Hk : Forall (fun p => trimmed p /\ free_of Char.is_comma p
                               /\ forall word, In word (split (lower p)) ->
                                               ~ In word global_bans)
                      (final_keywords generate_content banned_file raw w)).
  { rewrite final_keywords_eq. apply Forall_map.
    pose proof (corrected_trimmed World generate_content (kw_list raw) w) as Ht.
    pose proof (corrected_free World generate_content Char.is_comma
                  (kw_list raw) w Hanswer) as Hf.
    assert (Hc : Forall clean (kw_list raw)) by apply kw_list_clean.
    assert (Ht' : Forall trimmed (kw_list raw))
      by (eapply Forall_impl; [|exact Hc]; intros p Hp; apply Hp).
    assert (Hf' : Forall (free_of Char.is_comma) (kw_list raw))
      by (eapply Forall_impl; [|exact Hc]; apply comma_free_of_clean).
    specialize (Ht Ht'). specialize (Hf Hf').
    rewrite Forall_forall in *. intros kw Hkw. apply filter_In in Hkw.
    destruct Hkw as [Hin Hp]. split; [apply final_kw_trimmed, Ht, Hin|].
    split; [apply final_kw_free;
            [apply comma_title_blind | reflexivity | apply Hf, Hin]|].
    intros word Hw Hg.
    assert (Hb : banned_phrase (catalog_bans banned_file) kw).
    { left. exists word. split; [|exact Hg].
      apply final_kw_global_words; assumption. }
    apply passes_ban_check_spec in Hb. rewrite Hb in Hp. discriminate Hp. }
  rewrite Eout.
  destruct (final_keywords generate_content banned_file raw w) as [|p ps].
  - split; [intros Hne; contradiction Hne; reflexivity|].
    constructor; [|constructor]. intros word Hw. contradiction Hw.
  - rewrite split_comma_join
      by (eapply Forall_impl; [|exact Hk]; intros x Hx; apply Hx).
    apply Forall_cons_iff in Hk. destruct Hk as [(Ht & _ & Hg) Hrest].
    split.
    + intros _. cbn [map]. rewrite (trimmed_strip _ Ht). f_equal.
      rewrite map_map. rewrite <- (map_id ps) at 2. apply map_ext_in.
      intros q Hq. rewrite Forall_forall in Hrest.
      rewrite strip_cons_space by reflexivity.
      apply trimmed_strip, (Hrest q Hq).
    + constructor.
      * rewrite (trimmed_strip _ Ht). exact Hg.
      * apply Forall_map. eapply Forall_impl; [|exact Hrest].
        intros q (Hq & _ & Hgq). rewrite strip_cons_space by reflexivity.
        rewrite (trimmed_strip _ Hq). exact Hgq.
Qed.

Lemma normalizer_output_has_no_global_ban_word_witness :
  let raw := lit "dark thriller, end of the world today, huge drop" in
  let answering :=
    table_service
      [(get_harvest_loop_prompt (lit "end of the world today"),
        lit "Epic Finale")] in
  let out := returned (process_keywords unit answering None raw tt) in
  out = lit "Dark Thriller"
  /\ Forall (fun piece =>
               forall word, In word (split (lower (strip piece))) ->
                            ~ In word global_bans)
            (split_at Char.is_comma out).
Proof.
  cbv zeta. split; [vm_compute; reflexivity|].
  refine (proj2 (normalizer_output_has_no_global_ban_word unit
                   (table_service
                      [(get_harvest_loop_prompt (lit "end of the world today"),
                        lit "Epic Finale")])
                   None (lit "dark thriller, end of the world today, huge drop")
                   tt _)).
  intros prompt v text v' E. unfold table_service in E. cbn [find fst] in E.
  destruct (str_eqb _ prompt); cbn [option_map snd] in E;
    [|discriminate E].
  injection E as <- _. repeat constructor.
Defined.

(** With a comma in the answer the condition of X2 fails, and so can its
    conclusion: the answer "epic, soft" is one phrase for the normalizer,
    whose one word "epic," is no global ban, and two keywords for whoever
    splits the returned text at the comma. *)
Lemma answer_with_a_comma_reads_back_as_two_keywords :
  let raw := lit "end of the world today" in
  let answering :=
    table_service [(get_harvest_loop_prompt raw, lit "epic, soft")] in
  let out := returned (process_keywords unit answering None raw tt) in
  final_keywords answering None raw tt = [lit "Epic, Soft"]
  /\ out = lit "Epic, Soft"
  /\ map strip (split_at Char.is_comma out) = [lit "Epic"; lit "Soft"]
  /\ In (lit "epic") (split (lower (lit "Epic")))
  /\ In (lit "epic") global_bans.
Proof.
  cbv zeta. repeat split; try (vm_compute; reflexivity).
  - left. reflexivity.
  - left. reflexivity.
Qed.

(** ** The normalizer on blank input *)

Lemma strip_blank (s : str) :
  Forall (fun c => Char.isspace c = true) s -> strip s = [].
Proof.
  intros H. unfold strip, lstrip, rstrip.
  assert (D : forall t, Forall (fun c => Char.isspace c = true) t ->
                        drop_while Char.isspace t = []).
  { induction 1 as [|c t Hc Ht IH]; simpl; [reflexivity|].
    rewrite Hc. exact IH. }
  rewrite (D (rev s)) by (apply Forall_rev; exact H). reflexivity.
Qed.

Lemma split_at_blank (s : str) :
  blank s ->
  Forall (Forall (fun c => Char.isspace c = true))
         (split_at Char.is_comma_or_semicolon s).
Proof.
  induction 1 as [|c s Hc Hs IH]; simpl.
  - repeat constructor.
  - destruct (Char.is_comma_or_semicolon c) eqn:E.
    + constructor; [constructor | exact IH].
    + simpl in Hc.
      destruct (split_at Char.is_comma_or_semicolon s) as [|w ws];
        [repeat constructor; exact Hc|].
      inversion IH; subst. constructor; [constructor; assumption | assumption].
Qed.

(** X4. A raw input made only of commas, semicolons and whitespace has no
    phrase: the normalizer returns the empty text and does not call the
    rewriter. *)
Theorem blank_input_normalizes_to_nothing :
  forall (World : Type) (generate_content : str -> World -> option str * World)
         (banned_file : option str) (raw : str) (w : World),
    blank raw ->
    kw_list raw = []
    /\ returned (process_keywords World generate_content banned_file raw w) = []
    /\ prompts (process_keywords World generate_content banned_file raw w) = [].
Proof.
  intros World generate_content banned_file raw w H.
  assert (K : kw_list raw = []).
  { unfold kw_list. pose proof (split_at_blank raw H) as F.
    induction F as [|k ks Hk Hks IH]; [reflexivity|].
    simpl. rewrite (strip_blank _ Hk). exact IH. }
  split; [exact K|]. split.
  - rewrite process_keywords_eq, K. reflexivity.
  - rewrite process_keywords_prompts, K. reflexivity.
Qed.

Lemma blank_input_witness :
  blank (lit " ,; ,,  ;")
  /\ returned (process_keywords unit failing_service None (lit " ,; ,,  ;") tt)
     = [].
Proof.
  assert (H : blank (lit " ,; ,,  ;")) by (repeat constructor).
  split; [exact H|].
  exact (proj1 (proj2 (blank_input_normalizes_to_nothing
                         unit failing_service None _ tt H))).
Defined.

(** ** The ban file *)

Lemma map_class (p : ascii -> bool) (f : ascii -> ascii) (s : str) :
  (forall c, p (f c) = p c) -> map p (map f s) = map p s.
Proof. intros H. rewrite map_map. apply map_ext. exact H. Qed.

Lemma trimmed_lower (s : str) : trimmed s -> trimmed (lower s).
Proof.
  apply trimmed_class. symmetry. apply map_class.
  intro c. apply isspace_case_blind.
Qed.

Lemma catalog_entry (banned_file : option str) (b : str) :
  In b (catalog_bans banned_file) -> trimmed b /\ lower b = b.
Proof.
  destruct banned_file as [text|]; [|contradiction]. unfold catalog_bans.
  intros H. apply in_map_iff in H. destruct H as (line & <- & Hl).
  apply filter_In in Hl. destruct Hl as [_ Hl]. split.
  - apply trimmed_lower, strip_trimmed.
    destruct (strip line); [discriminate Hl | discriminate].
  - apply lower_idempotent.
Qed.

Lemma validator_ban_not_empty (banned_file : option str) (b : str) :
  In b (validator_bans banned_file) -> b <> [].
Proof.
  unfold validator_bans. intros H E. subst b. apply in_app_or in H.
  destruct H as [H|H].
  - simpl in H. repeat (destruct H as [H|H]; [discriminate H|]). exact H.
  - apply catalog_entry in H. destruct H as [[H _] _]. exact H.
Qed.

Lemma empty_text_not_banned (banned_file : option str) :
  ~ banned_text (validator_bans banned_file) [].
Proof.
  intros (b & Hb & before & after & E).
  apply (validator_ban_not_empty banned_file b Hb).
  simpl in E. destruct before; [|discriminate E].
  destruct b; [reflexivity | discriminate E].
Qed.

(** X5. Whatever the ban file holds, every catalog entry loaded from it is
    non-empty, has no whitespace at either end and is in lowercase; with no
    file there is no entry.  So no entry, global or catalog, is the empty
    text, and an empty text is never found banned. *)
Theorem catalog_entries_are_trimmed_lowercase :
  forall (banned_file : option str),
    Forall (fun b => b <> [] /\ trimmed b /\ lower b = b)
           (catalog_bans banned_file)
    /\ catalog_bans None = []
    /\ Forall (fun b => b <> []) (validator_bans banned_file)
    /\ ~ banned_text (validator_bans banned_file) [].
Proof.
  intros banned_file. split; [|split; [reflexivity|split]].
  - rewrite Forall_forall. intros b Hb.
    destruct (catalog_entry banned_file b Hb) as [Ht Hl].
    split; [|split; assumption].
    destruct b; [destruct Ht; contradiction | discriminate].
  - rewrite Forall_forall. apply validator_ban_not_empty.
  - apply empty_text_not_banned.
Qed.

Lemma splitlines_from_line (l cur rest : str) :
  free_of is_linebreak l ->
  splitlines_from cur (l ++ rest) = splitlines_from (rev l ++ cur) rest.
Proof.
  intros H. revert cur. induction H as [|c l Hc Hl IH]; intros cur.
  - reflexivity.
  - simpl. rewrite Hc, IH, <- app_assoc. reflexivity.
Qed.

Lemma splitlines_from_nil (rest : str) :
  match rest with
  | [] => @nil str
  | d :: r' =>
      if (Char.code "010"%char =? 13) && (Char.code d =? 10)
      then splitlines_from [] r' else splitlines_from [] rest
  end = splitlines_from [] rest.
Proof. destruct rest; reflexivity. Qed.

Lemma splitlines_join (ls : list str) :
  Forall (fun l => l <> [] /\ free_of is_linebreak l) ls ->
  splitlines (join ["010"%char] ls) = ls
  /\ splitlines (join ["010"%char] ls ++ ["010"%char])
     = match ls with [] => [[]] | _ => ls end.
Proof.
  unfold splitlines. induction 1 as [|l ls [Hne Hl] Hls [IH1 IH2]].
  - split; reflexivity.
  - destruct ls as [|m ls].
    + simpl join. split.
      * rewrite <- (app_nil_r l) at 1.
        rewrite (splitlines_from_line _ _ _ Hl), app_nil_r. simpl.
        rewrite rev_involutive.
        destruct (rev l) eqn:E; [|reflexivity].
        apply (f_equal (@rev ascii)) in E. rewrite rev_involutive in E.
        contradiction.
      * rewrite (splitlines_from_line _ _ _ Hl), app_nil_r. simpl.
        rewrite rev_involutive. reflexivity.
    + change (join ["010"%char] (l :: m :: ls))
        with (l ++ "010"%char :: join ["010"%char] (m :: ls)).
      split.
      * rewrite (splitlines_from_line _ _ _ Hl), app_nil_r.
        cbn [splitlines_from]. change (is_linebreak "010"%char) with true.
        cbv iota. rewrite rev_involutive, splitlines_from_nil, IH1.
        reflexivity.
      * rewrite <- app_assoc. cbn [app].
        rewrite (splitlines_from_line _ _ _ Hl), app_nil_r.
        cbn [splitlines_from]. change (is_linebreak "010"%char) with true.
        cbv iota. rewrite rev_involutive.
        rewrite splitlines_from_nil, IH2. reflexivity.
Qed.

(** X6. A ban file written with one entry per line reads back as exactly
    those entries, in order and lowercased, with or without a final line
    break, provided each entry is non-empty, has no whitespace at either
    end and holds no line break. *)
Theorem ban_file_round_trip :
  forall (entries : list str),
    Forall (fun e => trimmed e /\ free_of is_linebreak e) entries ->
    catalog_bans (Some (join ["010"%char] entries)) = map lower entries
    /\ catalog_bans (Some (join ["010"%char] entries ++ ["010"%char]))
       = map lower entries.
Proof.
  intros entries H.
  assert (Hl : Forall (fun l => l <> [] /\ free_of is_linebreak l) entries).
  { eapply Forall_impl; [|exact H]. intros e [Ht Hf]. split; [|exact Hf].
    destruct e; [destruct Ht; contradiction | discriminate]. }
  assert (K : forall ls, Forall (fun e => trimmed e /\ free_of is_linebreak e) ls ->
            map (fun line => lower (strip line))
              (filter (fun line => truthy (strip line)) ls) = map lower ls).
  { induction 1 as [|e es [Ht _] Hes IH]; [reflexivity|].
    simpl. rewrite (trimmed_strip _ Ht).
    destruct e; [destruct Ht; contradiction|]. simpl.
    rewrite (trimmed_strip _ Ht). f_equal. exact IH. }
  destruct (splitlines_join entries Hl) as [E1 E2].
  unfold catalog_bans. rewrite E1, E2. split; [apply K; exact H|].
  destruct entries; [reflexivity | apply K; exact H].
Qed.

Lemma ban_file_round_trip_witness :
  catalog_bans (Some (lit "forbidden word" ++ ["010"%char] ++ lit "Another Ban"
                      ++ ["010"%char]))
  = [lit "forbidden word"; lit "another ban"].
Proof.
  assert (H : Forall (fun e => trimmed e /\ free_of is_linebreak e)
                [lit "forbidden word"; lit "Another Ban"]).
  { repeat (apply Forall_cons; [split; [split; reflexivity | repeat constructor]|]).
    apply Forall_nil. }
  exact (proj2 (ban_file_round_trip _ H)).
Defined.

(** ** The validator: when it passes *)

Lemma flat_map_nil (A B : Type) (f : A -> list B) (l : list A) :
  flat_map f l = [] <-> Forall (fun x => f x = []) l.
Proof.
  induction l as [|x l IH]; simpl.
  - split; [constructor | reflexivity].
  - split.
    + intros H. apply app_eq_nil in H. destruct H as [H1 H2].
      constructor; [exact H1 | apply IH; exact H2].
    + intros H. inversion H; subst. rewrite H2. apply IH. assumption.
Qed.

Lemma Forall_enumerate (A : Type) (P : A -> Prop) (l : list A) (base : nat) :
  Forall (fun e => P (snd e)) (enumerate_from base l) <-> Forall P l.
Proof.
  revert base. induction l as [|x l IH]; intros base; simpl.
  - split; constructor.
  - split; intros H; inversion H; subst; constructor; auto;
      apply (IH (S base)); assumption.
Qed.

Lemma check_keyword_nil (banned : list str) (title piece : str) :
  check_keyword banned title [] piece = [] <-> keyword_ok banned piece.
Proof.
  unfold check_keyword, keyword_ok. rewrite <- any_in_banned_text.
  destruct (Nat.ltb_spec 2 (count Char.space (strip piece)));
    destruct (any_in banned (lower (strip piece))); simpl; split;
    try discriminate; try (intros [H1 H2]; solve [lia | congruence]);
    try reflexivity; try (intros _; split; [lia | discriminate]).
Qed.

Lemma check_track_nil (banned_file : option str) (i : nat) (t : Track) :
  check_track (validator_bans banned_file) [] (i, t) = []
  <-> track_ok (validator_bans banned_file) t.
Proof.
  rewrite check_track_report. unfold track_ok.
  set (banned := validator_bans banned_file).
  set (title := get (Title t) _).
  set (desc := strip (get (Track_Description t) [])).
  assert (Hd : (if truthy desc && member (first_word_of desc) articles
                then [Msg.antigravity title (first_word_of desc)] else []) = []
               <-> ~ In (first_word_of desc) articles).
  { rewrite <- member_In.
    destruct desc as [|c r] eqn:D.
    - simpl. split; [intros _ H; vm_compute in H; discriminate H | reflexivity].
    - cbn [truthy is_empty negb andb].
      destruct (member (first_word_of (c :: r)) articles); split;
        solve [discriminate | reflexivity | intros H; exfalso; apply H; reflexivity]. }
  assert (Hk : (if truthy (get (Keywords t) [])
                then flat_map (check_keyword banned title [])
                       (split_at Char.is_comma (get (Keywords t) []))
                else []) = []
               <-> Forall (keyword_ok banned)
                     (split_at Char.is_comma (get (Keywords t) []))).
  { destruct (get (Keywords t) []) as [|c r] eqn:K.
    - simpl. split; [|reflexivity]. intros _. constructor; [|constructor].
      split; [simpl; lia | apply empty_text_not_banned].
    - cbn [truthy is_empty negb]. rewrite flat_map_nil.
      split; intros H; (eapply Forall_impl; [|exact H]);
        intros piece Hp; apply (check_keyword_nil banned title piece); exact Hp. }
  split.
  - intros H. apply app_eq_nil in H. destruct H as [H1 H2].
    split; [apply Hk; exact H1 | apply Hd; exact H2].
  - intros [H1 H2]. apply Hk in H1. apply Hd in H2. rewrite H1, H2. reflexivity.
Qed.

(** X7. [validate_data] passes exactly when there is at least one track,
    every trimmed keyword of every track has at most two spaces and holds no
    ban entry, no description opens (up to its first space) with "a", "an"
    or "the", and neither the album description nor the album name holds a
    ban entry.  Nothing else is looked at. *)
Theorem validation_passes_exactly_when :
  forall (banned_file : option str) (data : AlbumContent),
    let banned := validator_bans banned_file in
    fst (validate_data banned_file data) = true
    <-> get (tracks data) [] <> []
        /\ Forall (track_ok banned) (get (tracks data) [])
        /\ ~ banned_text banned (get (album_description data) [])
        /\ ~ banned_text banned (get (album_name data) []).
Proof.
  intros banned_file data banned.
  rewrite validate_data_passed, validate_data_errors. fold banned.
  assert (Ht : flat_map (check_track banned []) (enumerate (get (tracks data) []))
               = [] <-> Forall (track_ok banned) (get (tracks data) [])).
  { rewrite flat_map_nil. unfold enumerate.
    rewrite <- (Forall_enumerate _ (track_ok banned) _ 0).
    split; intros H; (eapply Forall_impl; [|exact H]); intros [i t] Hp;
      apply (check_track_nil banned_file i t); exact Hp. }
  assert (Ha : album_errors banned data = []
               <-> get (tracks data) [] <> []
                   /\ ~ banned_text banned (get (album_description data) [])
                   /\ ~ banned_text banned (get (album_name data) [])).
  { unfold album_errors. rewrite <- !any_in_banned_text.
    destruct (any_in banned (lower (get (album_description data) [])));
      destruct (any_in banned (lower (get (album_name data) [])));
      destruct (get (tracks data) []); cbn [is_empty app]; split;
      try discriminate; try reflexivity;
      try (intros (H1 & H2 & H3); exfalso;
           solve [apply H1; reflexivity | apply H2; reflexivity
                 | apply H3; reflexivity]).
    intros _. repeat split; discriminate. }
  split.
  - intros H. apply app_eq_nil in H. destruct H as [H1 H2].
    apply Ht in H1. apply Ha in H2. tauto.
  - intros (H1 & H2 & H3 & H4). apply Ht in H2.
    rewrite H2. apply Ha. tauto.
Qed.

Lemma enumerate_from_app (A : Type) (l1 l2 : list A) (base : nat) :
  enumerate_from base (l1 ++ l2)
  = enumerate_from base l1 ++ enumerate_from (base + List.length l1) l2.
Proof.
  revert base. induction l1 as [|x l1 IH]; intros base; simpl.
  - rewrite Nat.add_0_r. reflexivity.
  - rewrite IH, Nat.add_succ_comm. reflexivity.
Qed.

(** X8. The report of [validate_data] is ordered: for tracks given as one
    run followed by another, it is the messages of the first run, then
    those of the second (its tracks numbered on from the first), then the
    album-description, album-name and no-track messages, in that order. *)
Theorem validation_report_follows_track_order :
  forall (banned_file : option str) (data : AlbumContent)
         (first_run second_run : list Track),
    get (tracks data) [] = first_run ++ second_run ->
    let banned := validator_bans banned_file in
    snd (validate_data banned_file data)
    = flat_map (check_track banned []) (enumerate_from 0 first_run)
      ++ flat_map (check_track banned [])
           (enumerate_from (List.length first_run) second_run)
      ++ (if any_in banned (lower (get (album_description data) []))
          then [Msg.album_description] else [])
      ++ (if any_in banned (lower (get (album_name data) []))
          then [Msg.album_name] else [])
      ++ (if is_empty (first_run ++ second_run) then [Msg.no_tracks] else []).
Proof.
  intros banned_file data first_run second_run H banned.
  rewrite validate_data_errors. fold banned. unfold album_errors, enumerate.
  rewrite H, enumerate_from_app, flat_map_app, <- app_assoc. reflexivity.
Qed.

Lemma validation_report_order_witness :
  snd (validate_data None (Sample.album [Sample.dawn; untitled_track]))
  = [ Msg.banned_keyword (lit "Dawn") (lit "Huger Sound");
      Msg.too_many_spaces (lit "Track 2") (lit "a  b  c");
      Msg.antigravity (lit "Track 2") (lit "the") ].
Proof.
  rewrite (validation_report_follows_track_order None
             (Sample.album [Sample.dawn; untitled_track])
             [Sample.dawn] [untitled_track] eq_refl).
  vm_compute. reflexivity.
Defined.

(** ** The compiler: when it raises, and what it writes *)

Lemma track_members_none (to_csv : Frame -> str) (records : list Track) :
  track_members to_csv records = None
  <-> exists c, has_column records c = false.
Proof.
  unfold track_members, select. cbn [forallb]. rewrite !andb_true_r.
  destruct (has_column records ColTitle) eqn:T;
    destruct (has_column records ColKeywords) eqn:K;
    destruct (has_column records ColDescription) eqn:D; cbn [andb];
    split; try discriminate; try reflexivity;
    try (intros _; first [ exists ColTitle; assumption
                         | exists ColKeywords; assumption
                         | exists ColDescription; assumption ]).
  intros ([| |] & H); congruence.
Qed.

(** X9. [compile_final_package] raises in one case only: the track sequence
    is not empty and one of the columns Title, Keywords, Track Description
    is carried by none of its records (the data frame then has no such
    column).  Missing album fields never make it raise. *)
Theorem compiler_raises_exactly_on_a_missing_column :
  forall (to_csv : Frame -> str) (data : AlbumContent),
    compile_final_package to_csv data = None
    <-> exists records c,
          tracks data = Some records /\ records <> []
          /\ has_column records c = false.
Proof.
  intros to_csv data. unfold compile_final_package.
  destruct (tracks data) as [[|t ts]|] eqn:E.
  - split; [discriminate|]. intros (r & c & Hr & Hne & _).
    inversion Hr; subst. contradiction.
  - destruct (track_members to_csv (t :: ts)) as [m|] eqn:M.
    + split; [discriminate|]. intros (r & c & Hr & _ & Hc).
      inversion Hr; subst.
      assert (N : track_members to_csv (t :: ts) = None)
        by (apply track_members_none; exists c; exact Hc).
      rewrite N in M. discriminate M.
    + split; [|reflexivity]. intros _.
      apply track_members_none in M. destruct M as (c & Hc).
      exists (t :: ts), c. split; [reflexivity|]. split; [discriminate | exact Hc].
  - split; [discriminate|]. intros (r & c & Hr & _). discriminate Hr.
Qed.

(** X10. Whenever [compile_final_package] returns, the archive has no two
    members of the same name, and it has six members when there are tracks
    and four when there are none. *)
Theorem archive_member_names_are_distinct :
  forall (to_csv : Frame -> str) (data : AlbumContent) (archive : Archive.t),
    compile_final_package to_csv data = Some archive ->
    NoDup (Archive.namelist archive)
    /\ List.length archive
       = (if is_empty (get (tracks data) []) then 4 else 6).
Proof.
  intros to_csv data archive H. unfold compile_final_package in H.
  assert (D6 : NoDup [Archive.track_keywords; Archive.track_descriptions;
                      Archive.album_description; Archive.album_name;
                      Archive.cover_art; Archive.mailchimp]).
  { repeat (constructor;
            [simpl; intros F; repeat (destruct F as [F|F]; [discriminate F|]);
             exact F|]).
    constructor. }
  assert (D4 : NoDup [Archive.album_description; Archive.album_name;
                      Archive.cover_art; Archive.mailchimp]).
  { inversion D6 as [|x l _ D5]; subst. inversion D5; subst. assumption. }
  destruct (tracks data) as [[|t ts]|] eqn:E.
  - inversion H; subst. split; [exact D4 | reflexivity].
  - unfold track_members in H.
    destruct (select (t :: ts) [ColTitle; ColKeywords]) as [kw|];
      [|discriminate H].
    destruct (select (t :: ts) [ColTitle; ColDescription]) as [ds|];
      [|discriminate H].
    inversion H; subst. split; [exact D6 | reflexivity].
  - inversion H; subst. split; [exact D4 | reflexivity].
Qed.

Lemma archive_member_names_witness :
  NoDup (Archive.namelist
           ([ (Archive.track_keywords,
               plain_csv {| columns := [lit "Title"; lit "Keywords"];
                            rows := [[Title Sample.dawn; Keywords Sample.dawn]] |});
              (Archive.track_descriptions,
               plain_csv {| columns := [lit "Title"; lit "Track Description"];
                            rows := [[Title Sample.dawn;
                                      Track_Description Sample.dawn]] |}) ]
            ++ text_members (Sample.album [Sample.dawn]))).
Proof.
  exact (proj1 (archive_member_names_are_distinct plain_csv
                  (Sample.album [Sample.dawn]) _ eq_refl)).
Defined.

(** ** The export gate *)

Lemma passed_has_tracks (banned_file : option str) (data : AlbumContent) :
  fst (validate_data banned_file data) = true -> get (tracks data) [] <> [].
Proof.
  intros H E. apply validate_data_passed in H.
  rewrite validate_data_errors in H. apply app_eq_nil in H.
  destruct H as [_ H]. unfold album_errors in H. rewrite E in H.
  apply app_eq_nil in H. destruct H as [_ H].
  apply app_eq_nil in H. destruct H as [_ H]. discriminate H.
Qed.

(** Where it does not raise, a round on a row is the round on the row read
    as a dictionary. *)
Lemma check_row_eq (banned : list str) (errors : list str) (i : nat)
    (row : Row) :
  check_row banned errors (i, row)
  = if raising row then None
    else Some (check_track banned errors (i, as_track row)).
Proof.
  destruct row as [t k d]. unfold check_row, check_track, raising, as_track.
  cbn [row_title row_keywords row_description Title Keywords
       Track_Description frame_cell].
  destruct t, k, d; reflexivity.
Qed.

Lemma rows_loop (banned : list str) (session_rows : list Row) (i : nat)
    (errors : list str) :
  fold_left (fun acc entry =>
               match acc with
               | Some errors => check_row banned errors entry
               | None => None
               end)
            (enumerate_from i session_rows) (Some errors)
  = if existsb raising session_rows then None
    else Some (fold_left (check_track banned)
                         (enumerate_from i (map as_track session_rows))
                         errors).
Proof.
  revert i errors. induction session_rows as [|row l IH]; intros i errors;
    [reflexivity|].
  cbn [enumerate_from fold_left map existsb]. rewrite check_row_eq.
  destruct (raising row); cbn [orb]; [|apply IH].
  clear IH. generalize (S i). induction l as [|r l IH]; intros n;
    [reflexivity | apply IH].
Qed.

(** The validator on the session raises exactly on a raising row, and is
    otherwise [validate_data] on the rows read as dictionaries. *)
Lemma validate_session_eq (banned_file : option str) (app_data : Session) :
  validate_session banned_file app_data
  = if existsb raising (session_tracks app_data) then None
    else Some (validate_data banned_file (as_album app_data)).
Proof.
  unfold validate_session, validate_data, enumerate. rewrite rows_loop.
  destruct (existsb raising (session_tracks app_data)); [reflexivity|].
  unfold as_album. cbn [tracks album_description album_name get].
  destruct (session_tracks app_data); reflexivity.
Qed.

Lemma compile_session_members (to_csv : Frame -> str) (app_data : Session)
    (a : Archive.t) :
  session_tracks app_data <> [] ->
  compile_session to_csv app_data = Some a ->
  Archive.namelist a
  = [ Archive.track_keywords; Archive.track_descriptions;
      Archive.album_description; Archive.album_name;
      Archive.cover_art; Archive.mailchimp ].
Proof.
  intros Hne H. unfold compile_session in H.
  destruct (session_tracks app_data) as [|r l]; [contradiction Hne; reflexivity|].
  destruct (select_rows (r :: l) [ColTitle; ColKeywords]); [|discriminate H].
  destruct (select_rows (r :: l) [ColTitle; ColDescription]); [|discriminate H].
  inversion H; subst. reflexivity.
Qed.

Lemma compile_session_returns (to_csv : Frame -> str) (app_data : Session) :
  (forall row, In row (session_tracks app_data) ->
               forall c, row_cell c row <> Missing) ->
  compile_session to_csv app_data <> None.
Proof.
  intros Hall. unfold compile_session.
  destruct (session_tracks app_data) as [|r l]; [discriminate|].
  assert (Hk : forall c, existsb (fun row => has_key (row_cell c row)) (r :: l)
                         = true).
  { intros c. cbn [existsb]. specialize (Hall r (or_introl eq_refl) c).
    destruct (row_cell c r); [contradiction Hall; reflexivity | | |];
      reflexivity. }
  unfold select_rows. cbn [forallb]. rewrite !Hk. discriminate.
Qed.

(** X11. The export gate of the front end has three outcomes.  It stops
    with the validator's exception exactly when some row of the session
    holds NaN for its keywords or a missing value ([None] or NaN) for its
    description.  Otherwise it blocks, showing at least one error, or
    offers a package, and then the tracks are not empty: when the compiler
    returns, the package has the six members with their fixed names, never
    the four of a track-less archive; and when every row carries the three
    keys of a track the compiler does return. *)
Theorem export_gate_offers_only_complete_packages :
  forall (to_csv : Frame -> str) (banned_file : option str)
         (app_data : Session),
    let unreadable row :=
      row_keywords row = IsNaN
      \/ row_description row = IsNone \/ row_description row = IsNaN in
    match final_export_gate to_csv banned_file app_data with
    | Raised => exists row, In row (session_tracks app_data) /\ unreadable row
    | Blocked errors =>
        errors <> []
        /\ forall row, In row (session_tracks app_data) -> ~ unreadable row
    | Package archive =>
        (forall row, In row (session_tracks app_data) -> ~ unreadable row)
        /\ session_tracks app_data <> []
        /\ archive = compile_session to_csv app_data
        /\ (forall a, archive = Some a ->
              Archive.namelist a
              = [ lit "01 Track Keywords/Track_Keywords.csv";
                  lit "02 Track Descriptions/Track_Descriptions.csv";
                  lit "03 Album Description/Album_Description.txt";
                  lit "04 Album Name/Album_Name.txt";
                  lit "05 Album Cover Art/MidJourney_Prompts.txt";
                  lit "06 MailChimp Intro/MailChimp_Copy.txt" ])
        /\ ((forall row, In row (session_tracks app_data) ->
                forall c, row_cell c row <> Missing) ->
            archive <> None)
    end.
Proof.
  intros to_csv banned_file app_data unreadable.
  assert (Hr : forall row, raising row = true <-> unreadable row).
  { intros [t k d]. unfold raising, unreadable.
    cbn [row_keywords row_description].
    destruct k, d; split; intros H; try reflexivity; try discriminate H;
      try (destruct H as [H|[H|H]]; discriminate H); auto. }
  unfold final_export_gate. rewrite validate_session_eq.
  destruct (existsb raising (session_tracks app_data)) eqn:R.
  - apply existsb_exists in R. destruct R as (row & Hin & Hrow).
    exists row. split; [exact Hin | apply Hr; exact Hrow].
  - assert (Hok : forall row, In row (session_tracks app_data) ->
                              ~ unreadable row).
    { intros row Hin Hu. apply Hr in Hu.
      assert (E : existsb raising (session_tracks app_data) = true)
        by (apply existsb_exists; exists row; split; assumption).
      rewrite E in R. discriminate R. }
    destruct (validate_data banned_file (as_album app_data))
      as [passed errors] eqn:V.
    assert (Hp : fst (validate_data banned_file (as_album app_data)) = passed)
      by (rewrite V; reflexivity).
    assert (He : snd (validate_data banned_file (as_album app_data)) = errors)
      by (rewrite V; reflexivity).
    destruct passed; cbn [negb].
    + pose proof (passed_has_tracks banned_file _ Hp) as Hne.
      assert (Hne' : session_tracks app_data <> []).
      { intros E. apply Hne. unfold as_album. cbn [tracks get].
        rewrite E. reflexivity. }
      split; [exact Hok|]. split; [exact Hne'|]. split; [reflexivity|]. split.
      * intros a Ha. exact (compile_session_members to_csv app_data a Hne' Ha).
      * apply compile_session_returns.
    + split; [|exact Hok]. intros E. rewrite E in He.
      assert (T : fst (validate_data banned_file (as_album app_data)) = true)
        by (apply validate_data_passed; exact He).
      rewrite T in Hp. discriminate Hp.
Qed.

(** The gate on a session in which the editor has emptied a description,
    and on the same session with the description restored. *)
Example export_gate_cases :
  final_export_gate plain_csv None edited_session = Raised
  /\ (exists archive,
        final_export_gate plain_csv None
          {| session_tracks :=
               [ {| row_title := Text (lit "Dawn");
                    row_keywords := IsNone;
                    row_description := Text (lit "Slow piano.") |} ];
             session_album_description := lit "Quiet mornings.";
             session_album_name := lit "First Light";
             session_cover_art := [];
             session_mailchimp_intro := [] |}
        = Package (Some archive)
        /\ List.length archive = 6)
  /\ final_export_gate plain_csv None
       {| session_tracks := [];
          session_album_description := []; session_album_name := [];
          session_cover_art := []; session_mailchimp_intro := [] |}
     = Blocked [Msg.no_tracks].
Proof.
  split; [vm_compute; reflexivity|]. split; [|vm_compute; reflexivity].
  eexists. split; [vm_compute; reflexivity | reflexivity].
Qed.

(** ** The prompt of the rewriter *)

(** X12. The prompt sent to the rewriter determines the phrase it asks
    about: two phrases with the same prompt are the same phrase. *)
Theorem harvest_loop_prompt_is_injective :
  forall (kw1 kw2 : str),
    get_harvest_loop_prompt kw1 = get_harvest_loop_prompt kw2 -> kw1 = kw2.
Proof.
  intros kw1 kw2 H. unfold get_harvest_loop_prompt in H.
  apply app_inv_head in H. apply app_inv_tail in H. exact H.
Qed.

Lemma harvest_loop_prompt_witness :
  lit "end of the world today" = lit "end of the world today".
Proof.
  exact (harvest_loop_prompt_is_injective _ _ eq_refl).
Defined.

(** ** Folder resolution *)

(** X13. After the sub-folders are resolved from a listing, the dictionary
    has the keys it had, in the same order; a key holds a folder only if
    that folder is a listed directory whose lowercase name contains the
    lowercase key, and it holds none exactly when no listed directory
    does. *)
Theorem resolved_folders_match_their_keys :
  forall (entries : list DirEntry) (fs : Folders),
    let resolved := _resolve_subfolders (Some entries) fs in
    map fst resolved = map fst fs
    /\ (forall key name, In (key, Some name) resolved ->
          In {| entry_name := name; entry_is_dir := true |} entries
          /\ Substring (lower key) (lower name))
    /\ (forall key, In (key, None) resolved ->
          forall e, In e entries -> entry_is_dir e = true ->
                    ~ Substring (lower key) (lower (entry_name e))).
Proof.
  intros entries fs resolved. unfold resolved, _resolve_subfolders.
  split; [rewrite map_map; reflexivity|]. split.
  - intros key name H. apply in_map_iff in H.
    destruct H as ([k v] & E & _). cbn [fst] in E. inversion E; subst.
    unfold first_match in H1. apply find_some in H1. destruct H1 as [Hin Hc].
    split; [|apply contains_spec; exact Hc].
    apply in_map_iff in Hin. destruct Hin as ([n d] & En & Hf).
    apply filter_In in Hf. cbn in En, Hf. destruct Hf as [Hf Hd]. subst.
    exact Hf.
  - intros key H e He Hd Hs. apply in_map_iff in H.
    destruct H as ([k v] & E & _). cbn [fst] in E. inversion E; subst.
    unfold first_match in H1.
    pose proof (find_none _ _ H1 (entry_name e)) as Hn.
    assert (Hin : In (entry_name e)
                     (map entry_name (filter entry_is_dir entries))).
    { apply in_map, filter_In. split; assumption. }
    specialize (Hn Hin). cbv beta in Hn.
    apply contains_spec in Hs. rewrite Hs in Hn. discriminate Hn.
Qed.




Lemma resolve_if_exists_keys (view : RootView) (fs : Folders) :
  map fst (resolve_if_exists view fs) = map fst fs.
Proof.
  unfold resolve_if_exists, _resolve_subfolders.
  destruct (root_exists view); [|reflexivity].
  destruct (root_listing view); [|reflexivity].
  rewrite map_map. reflexivity.
Qed.

(** X15. However an engine is built and however often its root is set, to
    paths that exist, do not exist or cannot be listed, its folder
    dictionary has exactly the three keys 01_VISUAL_REFERENCES,
    02_VOICE_GUIDES and 03_METADATA_MASTER, in this order; and setting the
    root to a path that does not exist, or cannot be listed, changes the
    root but leaves the folders of the previous root in place. *)
Theorem engine_keeps_its_three_folder_keys :
  forall (file_system : str -> RootView) (root : option str)
         (roots : list str),
    let engine :=
      fold_left (set_root_path file_system) roots (init file_system root) in
    map fst (folders engine)
    = [ lit "01_VISUAL_REFERENCES"; lit "02_VOICE_GUIDES";
        lit "03_METADATA_MASTER" ]
    /\ (forall missing,
          root_exists (file_system missing) = false
          \/ root_listing (file_system missing) = None ->
          root_path (set_root_path file_system engine missing) = missing
          /\ folders (set_root_path file_system engine missing)
             = folders engine).
Proof.
  intros file_system root roots engine. split.
  - unfold engine.
    assert (H : map fst (folders (init file_system root))
                = map fst initial_folders)
      by (unfold init; cbn [folders]; apply resolve_if_exists_keys).
    change [lit "01_VISUAL_REFERENCES"; lit "02_VOICE_GUIDES";
            lit "03_METADATA_MASTER"] with (map fst initial_folders).
    rewrite <- H. clear H. generalize (init file_system root) as e.
    induction roots as [|r roots IH]; intros e; [reflexivity|].
    cbn [fold_left]. rewrite IH. unfold set_root_path. cbn [folders].
    apply resolve_if_exists_keys.
  - intros missing H. split; [reflexivity|].
    unfold set_root_path, resolve_if_exists, _resolve_subfolders.
    cbn [folders]. destruct H as [-> | ->]; [reflexivity|].
    destruct (root_exists (file_system missing)); reflexivity.
Qed.

(** ** A failed generation, kept as a description *)

Lemma drop_while_app (p : ascii -> bool) (a b : str) :
  drop_while p (a ++ b)
  = match drop_while p a with
    | [] => drop_while p b
    | c :: r => (c :: r) ++ b
    end.
Proof.
  induction a as [|c a IH]; simpl; [destruct (drop_while p b); reflexivity|].
  destruct (p c); [exact IH | reflexivity].
Qed.

Lemma strip_error_text (message : str) :
  strip (lit "Error: " ++ message) = lit "Error:"
  \/ exists rest, strip (lit "Error: " ++ message)
                  = lit "Error:" ++ Char.space :: rest.
Proof.
  unfold strip, lstrip, rstrip.
  change (lit "Error: " ++ message) with (lit "Error:" ++ Char.space :: message).
  rewrite rev_app_distr. cbn [rev]. rewrite <- app_assoc.
  rewrite drop_while_app.
  destruct (drop_while Char.isspace (rev message)) as [|c r] eqn:D.
  - left. vm_compute. reflexivity.
  - right. exists (rev (c :: r)).
    rewrite !rev_app_distr, rev_involutive.
    change (rev [Char.space]) with [Char.space].
    rewrite <- !app_assoc.
    change (lit "Error:") with ("E"%char :: lit "rror:").
    cbn [app]. rewrite drop_while_fixed by reflexivity. reflexivity.
Qed.

Lemma first_word_of_error (message : str) :
  first_word_of (strip (lit "Error: " ++ message)) = lit "error".
Proof.
  unfold first_word_of.
  destruct (strip_error_text message) as [-> | (rest & ->)].
  - vm_compute. reflexivity.
  - rewrite split_at_app; [vm_compute; reflexivity | | reflexivity].
    repeat constructor.
Qed.

(** X16. When the service raises, [call_gemini] returns the text
    "Error: " followed by the message, and does not raise.  The front end
    stores what [call_gemini] returns as the track description; the
    Antigravity check never reports such a text, whatever the message. *)
Theorem failed_generation_is_not_caught_by_antigravity :
  forall (World : Type) (generate : str -> str -> World -> (str + str) * World)
         (model_name system_instr prompt message : str) (w w' : World),
    generate model_name (full_prompt system_instr prompt) w
    = (inr message, w') ->
    let new_desc :=
      fst (call_gemini World generate model_name system_instr prompt w) in
    new_desc = lit "Error: " ++ message
    /\ forall banned i title keywords m,
         In m (check_track banned []
                 (i, {| Title := title; Keywords := keywords;
                        Track_Description := Some new_desc |})) ->
         ~ antigravity_message m.
Proof.
  intros World generate model_name system_instr prompt message w w' H new_desc.
  assert (E : new_desc = lit "Error: " ++ message)
    by (unfold new_desc, call_gemini; rewrite H; reflexivity).
  split; [exact E|].
  intros banned i title keywords m Hm Ha. rewrite E in Hm.
  rewrite check_track_report in Hm. cbn [Track_Description Keywords Title get] in Hm.
  rewrite first_word_of_error in Hm.
  apply in_app_or in Hm. destruct Hm as [Hm|Hm].
  - destruct (truthy (get keywords [])); [|contradiction].
    exact (keyword_message_not_antigravity _ _ _ _ Hm Ha).
  - change (member (lit "error") articles) with false in Hm.
    rewrite andb_false_r in Hm. contradiction.
Qed.

Lemma failed_generation_witness :
  let refusing (_ _ : str) (w : unit) := (@inr str str (lit "quota exceeded"), w) in
  fst (call_gemini unit refusing (lit "gemini-3.1-pro") (lit "You are the Head of A&R.")
         (lit "Refine the description.") tt)
  = lit "Error: quota exceeded".
Proof.
  cbv zeta.
  exact (proj1 (failed_generation_is_not_caught_by_antigravity unit
                  (fun _ _ w => (inr (lit "quota exceeded"), w))
                  (lit "gemini-3.1-pro") (lit "You are the Head of A&R.")
                  (lit "Refine the description.") (lit "quota exceeded")
                  tt tt eq_refl)).
Defined.

(** ** The audio analysis: the text given to the parser *)

Lemma strip_padded (lead x trail : str) :
  Forall (fun c => Char.isspace c = true) lead ->
  Forall (fun c => Char.isspace c = true) trail ->
  trimmed x ->
  strip (lead ++ x ++ trail) = x.
Proof.
  intros Hl Ht Hx.
  assert (L : forall y, strip (lead ++ y) = strip y).
  { intros y. induction Hl as [|c l Hc Hl' IH]; [reflexivity|].
    simpl app. rewrite (strip_cons_space _ _ Hc). exact IH. }
  rewrite L. unfold strip, lstrip, rstrip.
  rewrite rev_app_distr, drop_while_app.
  assert (D : drop_while Char.isspace (rev trail) = []).
  { assert (R : Forall (fun c => Char.isspace c = true) (rev trail))
      by (apply Forall_rev; exact Ht).
    induction R as [|c t Hc Ht' IH]; simpl; [reflexivity|].
    rewrite Hc. exact IH. }
  rewrite D. apply (trimmed_strip x Hx).
Qed.

Lemma endswith_app (s suffix : str) : endswith (s ++ suffix) suffix = true.
Proof.
  unfold endswith. apply startswith_spec. exists (rev s).
  apply rev_app_distr.
Qed.

Lemma without_last_app (s suffix : str) :
  without_last (List.length suffix) (s ++ suffix) = s.
Proof.
  unfold without_last. rewrite length_app, Nat.add_sub.
  rewrite firstn_app, Nat.sub_diag, firstn_all. simpl. apply app_nil_r.
Qed.

(** X17. A response made of a block fenced with three backquotes and "json"
    in front and three backquotes behind, with any whitespace around it,
    reaches the parser as the stripped content of the block; a response
    whose stripped text neither begins with that opening fence nor ends
    with three backquotes reaches it stripped and otherwise as it is. *)
Theorem fenced_response_is_unwrapped :
  forall (body lead trail : str),
    Forall (fun c => Char.isspace c = true) lead ->
    Forall (fun c => Char.isspace c = true) trail ->
    unfence (lead ++ (lit "```json" ++ body ++ lit "```") ++ trail)
    = strip body
    /\ (forall text,
          startswith (strip text) (lit "```json") = false ->
          endswith (strip text) (lit "```") = false ->
          unfence text = strip text).
Proof.
  intros body lead trail Hl Ht. split.
  - unfold unfence.
    assert (Hx : trimmed (lit "```json" ++ body ++ lit "```")).
    { split; [reflexivity|].
      rewrite !rev_app_distr. reflexivity. }
    rewrite (strip_padded _ _ _ Hl Ht Hx).
    assert (S : startswith (lit "```json" ++ body ++ lit "```") (lit "```json")
                = true)
      by (apply startswith_spec; eexists; reflexivity).
    rewrite S.
    change (from_index 7 (lit "```json" ++ body ++ lit "```"))
      with (body ++ lit "```").
    rewrite endswith_app.
    change 3 with (List.length (lit "```")). rewrite without_last_app.
    reflexivity.
  - intros text H1 H2. unfold unfence. rewrite H1, H2.
    apply strip_idempotent.
Qed.

Lemma fenced_response_witness :
  unfence (lit "  ```json" ++ ["010"%char] ++ lit "{ }" ++ ["010"%char]
           ++ lit "```" ++ ["010"%char])
  = lit "{ }".
Proof.
  assert (H := proj1 (fenced_response_is_unwrapped
                        (["010"%char] ++ lit "{ }" ++ ["010"%char])
                        (lit "  ") ["010"%char]
                        ltac:(repeat constructor) ltac:(repeat constructor))).
  exact H.
Defined.

(** ** The audio analysis: the metadata and the calls *)

Section AudioFacts.

Variable Number : Type.
Variable number_truthy : Number -> bool.
Variable World : Type.
Variable upload_file : str -> World -> option RemoteFile * World.
Variable get_file : str -> World -> option RemoteFile * World.
Variable analyze_audio : str -> RemoteFile -> World -> option (option str) * World.
Variable delete_file : str -> World -> bool * World.
Variable loads : str -> option (Json Number).
Variable generate_content : str -> World -> option str * World.
Variable generate_keywords_analysis_prompt : str -> str.

Local Abbreviation members_of := (list (str * Json Number)).

Lemma item_set_same (key : str) (v : Json Number) (members : members_of) :
  item Number key (set_item Number key v members) = Some v.
Proof.
  unfold item. induction members as [|[k x] rest IH]; simpl.
  - assert (E : str_eqb key key = true) by (apply str_eqb_eq; reflexivity).
    rewrite E. reflexivity.
  - destruct (str_eqb k key) eqn:E; simpl; rewrite E; [reflexivity | exact IH].
Qed.

Lemma item_set_other (key other : str) (v : Json Number) (members : members_of) :
  other <> key ->
  item Number other (set_item Number key v members) = item Number other members.
Proof.
  intros Hne. unfold item. induction members as [|[k x] rest IH]; simpl.
  - destruct (str_eqb key other) eqn:E; [|reflexivity].
    apply str_eqb_eq in E. congruence.
  - destruct (str_eqb k key) eqn:E; simpl.
    + apply str_eqb_eq in E. subst k.
      destruct (str_eqb key other) eqn:E'; [|reflexivity].
      apply str_eqb_eq in E'. congruence.
    + destruct (str_eqb k other); [reflexivity | exact IH].
Qed.

Lemma set_item_keys (key : str) (v x : Json Number) (members : members_of) :
  item Number key members = Some x ->
  map fst (set_item Number key v members) = map fst members.
Proof.
  unfold item. induction members as [|[k y] rest IH]; simpl; [discriminate|].
  destruct (str_eqb k key) eqn:E; simpl; [reflexivity|].
  intros H. rewrite (IH H). reflexivity.
Qed.

Lemma item_contains (key : str) (members : members_of) :
  json_contains Number key (JObject members)
  = Some (is_some (item Number key members)).
Proof.
  unfold item. simpl. f_equal.
  induction members as [|[k y] rest IH]; simpl; [reflexivity|].
  destruct (str_eqb k key); [reflexivity | exact IH].
Qed.

Local Abbreviation finish :=
  (with_processed_keywords Number number_truthy World generate_content).

(** X18. When the parsed metadata is an object whose "Keywords" is a
    non-empty string, the metadata returned is that object with "Keywords"
    replaced by its normalized form: every other key keeps its value, and
    the keys keep their order. *)
Theorem analysis_normalizes_only_the_keywords :
  forall (banned_file : option str) (members : members_of)
         (keywords_raw : str) (w : World) (calls : list Call),
    item Number (lit "Keywords") members = Some (JString keywords_raw) ->
    keywords_raw <> [] ->
    let out :=
      process_keywords World generate_content banned_file keywords_raw w in
    exists members',
      analysis (finish banned_file (JObject members) w calls)
      = Some (Some (JObject members'))
      /\ item Number (lit "Keywords") members' = Some (JString (returned out))
      /\ (forall key, key <> lit "Keywords" ->
            item Number key members' = item Number key members)
      /\ map fst members' = map fst members
      /\ service_then (finish banned_file (JObject members) w calls)
         = service_after out.
Proof.
  intros banned_file members keywords_raw w calls Hi Hne out.
  exists (set_item Number (lit "Keywords") (JString (returned out)) members).
  unfold with_processed_keywords. rewrite item_contains, Hi.
  cbn [is_some json_truthy].
  destruct keywords_raw as [|c r]; [contradiction|]. cbn [truthy is_empty negb].
  cbn [analysis service_then]. fold out.
  split; [reflexivity|]. split; [apply item_set_same|].
  split; [intros key Hk; apply item_set_other; exact Hk|].
  split; [apply (set_item_keys _ _ _ _ Hi) | reflexivity].
Qed.

Lemma array_contains (key : str) (items : list (Json Number)) :
  existsb (fun x => match x with
                    | JString s => str_eqb s key
                    | _ => false
                    end) items = true
  <-> In (JString key) items.
Proof.
  rewrite existsb_exists. split.
  - intros (x & Hx & E). destruct x; try discriminate E.
    apply str_eqb_eq in E. subst. exact Hx.
  - intros H. exists (JString key). split; [exact H|].
    apply str_eqb_eq. reflexivity.
Qed.

(** X19. After parsing, no metadata is returned (the lines raise, and the
    analysis gives up) exactly when the parsed value is null, a boolean or
    a number, a string containing "Keywords", an array with the element
    "Keywords", or an object whose "Keywords" is a non-empty value that is
    not a string; in every other case the parsed value is returned, and it
    is returned as it is unless "Keywords" is a non-empty string. *)
Theorem analysis_gives_up_exactly_on_unusable_keywords :
  forall (banned_file : option str) (metadata : Json Number)
         (w : World) (calls : list Call),
    (analysis (finish banned_file metadata w calls) = Some None
     <-> keywords_unusable Number number_truthy metadata)
    /\ (analysis (finish banned_file metadata w calls) <> None)
    /\ ((forall members s,
           metadata = JObject members ->
           item Number (lit "Keywords") members = Some (JString s) ->
           s = []) ->
        ~ keywords_unusable Number number_truthy metadata ->
        analysis (finish banned_file metadata w calls) = Some (Some metadata)).
Proof.
  intros banned_file metadata w calls.
  unfold with_processed_keywords.
  destruct metadata as [|b|n|s|items|members].
  - cbn. split; [split; [intros _; exact I | reflexivity]|].
    split; [discriminate | intros _ H; exfalso; apply H; exact I].
  - cbn. split; [split; [intros _; exact I | reflexivity]|].
    split; [discriminate | intros _ H; exfalso; apply H; exact I].
  - cbn. split; [split; [intros _; exact I | reflexivity]|].
    split; [discriminate | intros _ H; exfalso; apply H; exact I].
  - cbn [json_contains keywords_unusable].
    destruct (contains s (lit "Keywords")) eqn:C; cbn [analysis].
    + apply contains_spec in C.
      split; [split; [intros _; exact C | reflexivity]|].
      split; [discriminate | intros _ H; exfalso; exact (H C)].
    + assert (N : ~ Substring (lit "Keywords") s)
        by (intros H; apply contains_spec in H; congruence).
      split; [split; [discriminate | intros H; exfalso; exact (N H)]|].
      split; [discriminate | reflexivity].
  - cbn [json_contains keywords_unusable].
    match goal with |- context [existsb ?f items] =>
      destruct (existsb f items) eqn:C end; cbn [analysis].
    + apply array_contains in C.
      split; [split; [intros _; exact C | reflexivity]|].
      split; [discriminate | intros _ H; exfalso; exact (H C)].
    + assert (N : ~ In (JString (lit "Keywords")) items)
        by (intros H; apply array_contains in H; congruence).
      split; [split; [discriminate | intros H; exfalso; exact (N H)]|].
      split; [discriminate | reflexivity].
  - rewrite item_contains. cbn [keywords_unusable].
    destruct (item Number (lit "Keywords") members) as [v|] eqn:Hi;
      cbn [is_some].
    + destruct (json_truthy Number number_truthy v) eqn:T.
      * assert (U : (forall s, v <> JString s) ->
                    exists v', Some v = Some v'
                               /\ json_truthy Number number_truthy v' = true
                               /\ forall s, v' <> JString s).
        { intros Hs. exists v. split; [reflexivity|]. split; assumption. }
        destruct v as [|b|n|s|items|ms]; cbn [analysis];
          try (split; [split; [intros _; apply U; intros s E; discriminate E
                              | reflexivity]|];
               split; [discriminate|];
               intros _ H; exfalso; apply H, U; intros s E; discriminate E).
        split; [split; [discriminate|]|].
        -- intros (v' & Hv & _ & Hs). inversion Hv; subst.
           exfalso. apply (Hs s). reflexivity.
        -- split; [discriminate|]. intros Hall _.
           specialize (Hall members s eq_refl Hi).
           subst s. discriminate T.
      * cbn [analysis]. split; [split; [discriminate|]|].
        -- intros (v' & Hv & Ht & _). inversion Hv; subst. congruence.
        -- split; [discriminate | reflexivity].
    + cbn [analysis]. split; [split; [discriminate|]|].
      * intros (v & Hv & _). discriminate Hv.
      * split; [discriminate | reflexivity].
Qed.

Local Abbreviation poll := (await World get_file).


Local Abbreviation analyze :=
  (analyze_audio_file Number number_truthy World upload_file get_file
     analyze_audio delete_file loads generate_content
     generate_keywords_analysis_prompt).


End AudioFacts.

Lemma analysis_normalizes_witness :
  exists members',
    analysis (with_processed_keywords nat nonzero unit failing_service None
                (JObject test_track) tt [])
    = Some (Some (JObject members'))
    /\ item nat (lit "Keywords") members' = Some (JString (lit "Key1, Key2"))
    /\ item nat (lit "Title") members' = Some (JString (lit "Test Track")).
Proof.
  destruct (analysis_normalizes_only_the_keywords nat nonzero unit
              failing_service None test_track (lit "key1; key2") tt []
              eq_refl ltac:(discriminate))
    as (members' & H1 & H2 & H3 & _).
  exists members'. split; [exact H1|]. split; [exact H2|].
  rewrite (H3 (lit "Title") ltac:(discriminate)). reflexivity.
Defined.

(** The cases of test_audio_logic.py. *)
Example test_analyze_audio_file_success :
  let r := analyze_audio_file nat nonzero unit ready_upload no_poll
             (answering (lit "```json{...}```")) deleting
             (fun _ => Some (JObject test_track)) failing_service
             (fun catalog => lit "Analyze for " ++ catalog)
             3 None (lit "dummy.mp3") (lit "redCola") tt in
  (exists members,
     analysis r = Some (Some (JObject members))
     /\ item nat (lit "Title") members = Some (JString (lit "Test Track"))
     /\ item nat (lit "Keywords") members = Some (JString (lit "Key1, Key2")))
  /\ calls_made r
     = [ UploadFile (lit "dummy.mp3");
         GenerateContent (lit "Analyze for redCola") (lit "remote_file_id");
         DeleteFile (lit "remote_file_id") ].
Proof.
  cbv zeta. split; [|vm_compute; reflexivity].
  eexists. split; [vm_compute; reflexivity|].
  split; vm_compute; reflexivity.
Qed.

Example test_analyze_audio_file_json_error :
  analysis (analyze_audio_file nat nonzero unit ready_upload no_poll
              (answering (lit "Invalid JSON output")) deleting
              (fun _ => None) failing_service
              (fun catalog => lit "Analyze for " ++ catalog)
              3 None (lit "dummy.mp3") (lit "redCola") tt)
  = Some None.
Proof. vm_compute. reflexivity. Qed.

(** ** The album-description prompt *)

Lemma splitlines_after_line (l rest : str) :
  free_of is_linebreak l ->
  splitlines (l ++ newline :: rest) = l :: splitlines rest.
Proof.
  intros H. unfold splitlines.
  rewrite (splitlines_from_line _ _ _ H), app_nil_r.
  cbn [splitlines_from]. change (is_linebreak newline) with true. cbv iota.
  rewrite rev_involutive. f_equal. apply splitlines_from_nil.
Qed.

(** X21. The task prompt for the album description has, after its heading
    line, one line per track in track order, each a dash, a space and the
    track's description (nothing after the dash for a track without one),
    provided no description holds a line break. *)
Theorem album_description_prompt_lists_every_track :
  forall (personas : list (str * str)) (catalog : str) (records : list Track),
    Forall (fun t => free_of is_linebreak (get (Track_Description t) []))
           records ->
    splitlines (snd (album_description_request personas catalog records))
    = lit "Track Descriptions:"
      :: map (fun t => lit "- " ++ get (Track_Description t) []) records.
Proof.
  intros personas catalog records H.
  unfold album_description_request, generate_album_description_prompt.
  cbn [snd]. change ([newline] ++ ?x) with (newline :: x).
  rewrite splitlines_after_line by (repeat constructor).
  f_equal. rewrite map_map.
  refine (proj1 (splitlines_join _ _)).
  apply Forall_map. eapply Forall_impl; [|exact H].
  intros t Ht. split; [discriminate|].
  unfold free_of. apply Forall_app. split; [repeat constructor | exact Ht].
Qed.

Lemma album_description_prompt_witness :
  splitlines (snd (album_description_request
                     [(lit "Arbitrator", lit "Synthesizes.")] (lit "SSC")
                     [Sample.dawn; Sample.dusk]))
  = [ lit "Track Descriptions:";
      lit "- Slow piano opens the day.";
      lit "- Strings fade, then rest." ].
Proof.
  assert (H : Forall (fun t => free_of is_linebreak
                                 (get (Track_Description t) []))
                [Sample.dawn; Sample.dusk]).
  { repeat (apply Forall_cons; [repeat constructor|]). apply Forall_nil. }
  exact (album_description_prompt_lists_every_track
           [(lit "Arbitrator", lit "Synthesizes.")] (lit "SSC") _ H).
Defined.
